(** * CircuitBreaker: a shallow embedding of
      Backend/DesignPattern/CircuitBreaker.cpp and the properties of its
      state machine.

    The class is modelled as a record of its data members and its member
    functions as functions on that record (explicit state passing).  What the
    surroundings contribute to one [execute] call (the two readings of
    [std::chrono::system_clock::now()] and what the callable [func] does when
    it is invoked) is collected in a [Call] record.  The [std::mutex] member
    has no data of its own; taking and releasing it is recorded in the event
    log that [execute] returns, together with the invocation of [func]. *)

From Stdlib Require Import ZArith Lia.
From stdpp Require Import base tactics option list strings gmap pretty.

Local Open Scope Z_scope.

(** ** C++ [int]

    [failureCount_] and [successCount_] are [std::atomic<int>].  For atomic
    signed integers [operator++] is specified on the two's complement
    representation: incrementing [INT_MAX] yields [INT_MIN]. *)

Definition INT_MAX : Z := 2147483647.
Definition INT_MIN : Z := -2147483648.

Definition in_int (z : Z) : Prop := INT_MIN <= z <= INT_MAX.

Definition wrap_int (z : Z) : Z := (z - INT_MIN) `mod` 4294967296 + INT_MIN.

(** ** Exceptions and completions

    A call either returns a value or leaves by an exception.  The only thing
    the code distinguishes about an exception is whether
    [catch (const std::exception&)] matches it. *)

Inductive exception : Type :=
  | std_exception (what : string)
  | foreign_exception.

Inductive completion (A : Type) : Type :=
  | Returns (a : A)
  | Throws (e : exception).
Arguments Returns {A} a.
Arguments Throws {A} e.

(** [enum class CircuitState { CLOSED, OPEN, HALF_OPEN }] *)
Inductive CircuitState : Type := CLOSED | OPEN | HALF_OPEN.

#[global] Instance CircuitState_eq_dec : EqDecision CircuitState.
Proof. solve_decision. Defined.

(** [static_cast<int>(state_)]: the enumerators are numbered from 0. *)
Definition static_cast_int (s : CircuitState) : Z :=
  match s with CLOSED => 0 | OPEN => 1 | HALF_OPEN => 2 end.

(** What happens during a call of [execute], in program order. *)
Inductive Event : Type :=
  | Lock      (* std::lock_guard acquires mutex_ *)
  | Unlock    (* the guard's destructor releases mutex_ *)
  | Invoke.   (* func() is called *)

#[global] Instance Event_eq_dec : EqDecision Event.
Proof. solve_decision. Defined.

(** The surroundings of one [execute] call. *)
Record Call : Type := mkCall {
  clock_at_check : Z;        (* system_clock::now() in the OPEN test *)
  func : completion string;  (* what func() does if it is invoked *)
  clock_at_failure : Z       (* system_clock::now() in onFailure *)
}.

Module CircuitBreaker.

(** The data members.  Time points are tick counts of [system_clock],
    taken as integers: the clock's 64-bit count does not overflow at any
    reading the clock can give. *)
Record t : Type := mk {
  failureThreshold_ : Z;
  retryTime_ : Z;
  successThreshold_ : Z;
  failureCount_ : Z;
  successCount_ : Z;
  state_ : CircuitState;
  lastFailureTime_ : Z
}.

Definition set_state (s : CircuitState) (b : t) : t :=
  mk (failureThreshold_ b) (retryTime_ b) (successThreshold_ b)
     (failureCount_ b) (successCount_ b) s (lastFailureTime_ b).

Definition set_failureCount (n : Z) (b : t) : t :=
  mk (failureThreshold_ b) (retryTime_ b) (successThreshold_ b)
     n (successCount_ b) (state_ b) (lastFailureTime_ b).

Definition set_successCount (n : Z) (b : t) : t :=
  mk (failureThreshold_ b) (retryTime_ b) (successThreshold_ b)
     (failureCount_ b) n (state_ b) (lastFailureTime_ b).

Definition set_lastFailureTime (now : Z) (b : t) : t :=
  mk (failureThreshold_ b) (retryTime_ b) (successThreshold_ b)
     (failureCount_ b) (successCount_ b) (state_ b) now.

(** The member initialiser list of the constructor; [now] is the reading
    of [system_clock::now()]. *)
Definition constructed (failureThreshold retryTime successThreshold : Z)
    (now : Z) : t :=
  mk failureThreshold retryTime successThreshold 0 0 CLOSED now.

(** The constructor: the initialiser list and an empty body, so it always
    completes normally. *)
Definition CircuitBreaker (failureThreshold retryTime successThreshold : Z)
    (now : Z) : completion t :=
  Returns (constructed failureThreshold retryTime successThreshold now).

(** [fallback()] *)
Definition fallback : string :=
  "Service is unavailable. Returning fallback response."%string.

(** [reset()] *)
Definition reset (b : t) : t :=
  set_successCount 0 (set_failureCount 0 (set_state CLOSED b)).

(** [onSuccess()] *)
Definition onSuccess (b : t) : t :=
  match state_ b with
  | HALF_OPEN =>
      let b1 := set_successCount (wrap_int (successCount_ b + 1)) b in
      if successCount_ b1 >=? successThreshold_ b1 then reset b1 else b1
  | _ => set_failureCount 0 b
  end.

(** [onFailure()] *)
Definition onFailure (now : Z) (b : t) : t :=
  let b1 := set_failureCount (wrap_int (failureCount_ b + 1)) b in
  if failureCount_ b1 >=? failureThreshold_ b1
  then set_lastFailureTime now (set_state OPEN b1)
  else b1.

(** [getMetrics()]: a [std::map] built from three pairs; the object is
    passed through. *)
Definition getMetrics (b : t) : gmap string Z * t :=
  (list_to_map [("failureCount"%string, failureCount_ b);
                ("successCount"%string, successCount_ b);
                ("currentState"%string, static_cast_int (state_ b))], b).

Section Clock.

(** Ticks of [system_clock] per second (the clock's period is fixed by the
    standard library, not by this file). *)
Variable ticks_per_second : Z.

(** [duration_cast<seconds>(now - last).count()]: integer division of the
    tick count, truncating towards zero. *)
Definition elapsed_seconds (now last : Z) : Z :=
  (now - last) `quot` ticks_per_second.

(** The test at the head of [execute]: [None] is the early
    [return fallback()], [Some b'] goes on to the call with the object
    as the test leaves it. *)
Definition open_check (now : Z) (b : t) : option t :=
  match state_ b with
  | OPEN =>
      if elapsed_seconds now (lastFailureTime_ b) >=? retryTime_ b
      then Some (set_state HALF_OPEN b)
      else None
  | _ => Some b
  end.

(** The [try] block and its handler. *)
Definition try_call (c : Call) (b : t) : completion string * t * list Event :=
  match func c with
  | Returns result => (Returns result, onSuccess b, [Invoke])
  | Throws (std_exception _) =>
      (Returns fallback, onFailure (clock_at_failure c) b, [Invoke])
  | Throws foreign_exception => (Throws foreign_exception, b, [Invoke])
  end.

(** [std::lock_guard<std::mutex> lock(mutex_)] as the first statement of a
    function body: the mutex is taken before the body and released when
    the body is left, by [return] or by an exception. *)
Definition lock_guard {A : Type} (body : A * t * list Event)
    : A * t * list Event :=
  let '(r, b, evs) := body in (r, b, [Lock] ++ evs ++ [Unlock]).

(** [execute(func)] *)
Definition execute (b : t) (c : Call) : completion string * t * list Event :=
  lock_guard
    match open_check (clock_at_check c) b with
    | None => (Returns fallback, b, [])
    | Some b1 => try_call c b1
    end.

Definition result_of (x : completion string * t * list Event) := x.1.1.
Definition breaker_of (x : completion string * t * list Event) := x.1.2.
Definition log_of (x : completion string * t * list Event) := x.2.

(** The object after one call, and after a sequence of calls. *)
Definition step (b : t) (c : Call) : t := breaker_of (execute b c).

Definition run (b : t) (cs : list Call) : t := foldl step b cs.

End Clock.

(** ** Failures, as the specification counts them *)

(** The length of the current run of failed operations when every
    exception of [func] counts as a failure, whatever its type. *)
Fixpoint failed_in_a_row (acc : Z) (os : list (completion string)) : Z :=
  match os with
  | [] => acc
  | Returns _ :: os' => failed_in_a_row 0 os'
  | Throws _ :: os' => failed_in_a_row (acc + 1) os'
  end.

(** ** The object write by write

    [getMetrics] does not take [mutex_], so a thread that calls it while
    another thread is inside [execute] reads the members as that call has
    left them so far.  The functions below list the values of the object
    after each assignment of a call, in program order. *)

(** [reset()]: three assignments. *)
Definition reset_writes (b : t) : list t :=
  let b1 := set_state CLOSED b in
  let b2 := set_failureCount 0 b1 in
  let b3 := set_successCount 0 b2 in
  [b1; b2; b3].

(** [onSuccess()] *)
Definition onSuccess_writes (b : t) : list t :=
  match state_ b with
  | HALF_OPEN =>
      let b1 := set_successCount (wrap_int (successCount_ b + 1)) b in
      if successCount_ b1 >=? successThreshold_ b1
      then b1 :: reset_writes b1
      else [b1]
  | _ => [set_failureCount 0 b]
  end.

(** [onFailure()] *)
Definition onFailure_writes (now : Z) (b : t) : list t :=
  let b1 := set_failureCount (wrap_int (failureCount_ b + 1)) b in
  if failureCount_ b1 >=? failureThreshold_ b1
  then [b1; set_state OPEN b1; set_lastFailureTime now (set_state OPEN b1)]
  else [b1].

(** The [try] block and its handler. *)
Definition try_call_writes (c : Call) (b : t) : list t :=
  match func c with
  | Returns _ => onSuccess_writes b
  | Throws (std_exception _) => onFailure_writes (clock_at_failure c) b
  | Throws foreign_exception => []
  end.

(** [execute(func)] *)
Definition execute_writes (ticks_per_second : Z) (b : t) (c : Call) : list t :=
  match state_ b with
  | OPEN =>
      if elapsed_seconds ticks_per_second (clock_at_check c)
           (lastFailureTime_ b) >=? retryTime_ b
      then set_state HALF_OPEN b :: try_call_writes c (set_state HALF_OPEN b)
      else []
  | _ => try_call_writes c b
  end.

(** The three member reads of [getMetrics], in the order of its initialiser
    list, each made on the object as it is at the moment of that read. *)
Definition getMetrics_reads (at_failureCount at_successCount at_state : t)
    : gmap string Z :=
  list_to_map [("failureCount"%string, failureCount_ at_failureCount);
               ("successCount"%string, successCount_ at_successCount);
               ("currentState"%string, static_cast_int (state_ at_state))].

(** ** Reading a log *)

(** How often [func] was called. *)
Fixpoint invocations (log : list Event) : nat :=
  match log with
  | [] => 0%nat
  | Invoke :: l => S (invocations l)
  | _ :: l => invocations l
  end.

(** How often the mutex was taken: the number of critical sections. *)
Fixpoint critical_sections (log : list Event) : nat :=
  match log with
  | [] => 0%nat
  | Lock :: l => S (critical_sections l)
  | _ :: l => critical_sections l
  end.

(** For each call of [func] in the log, whether the mutex was held at that
    moment ([held] is its status at the start of the log). *)
Fixpoint held_at_invocations (held : bool) (log : list Event) : list bool :=
  match log with
  | [] => []
  | Lock :: l => held_at_invocations true l
  | Unlock :: l => held_at_invocations false l
  | Invoke :: l => held :: held_at_invocations held l
  end.

(** ** Reading a sequence of calls *)

Definition outcomes (cs : list Call) : list (completion string) := map func cs.

(** The length of the current run of failures: a failure is an exception
    that the handler of [execute] catches, a success is a returned value;
    an exception that passes through [execute] is neither. *)
Fixpoint streak (acc : Z) (os : list (completion string)) : Z :=
  match os with
  | [] => acc
  | Returns _ :: os' => streak 0 os'
  | Throws (std_exception _) :: os' => streak (acc + 1) os'
  | Throws foreign_exception :: os' => streak acc os'
  end.

(** The object is CLOSED before each call of [cs] and after the last. *)
Fixpoint closed_throughout (ticks_per_second : Z) (b : t) (cs : list Call)
    : bool :=
  bool_decide (state_ b = CLOSED) &&
  match cs with
  | [] => true
  | c :: cs' => closed_throughout ticks_per_second (step ticks_per_second b c) cs'
  end.

(** ** Invariants of the counters *)

(** What holds of [failureCount_] after [n] calls, as long as it has not
    wrapped around. *)
Definition failure_invariant (n : Z) (b : t) : Prop :=
  0 <= failureCount_ b <= n /\
  (state_ b <> CLOSED -> failureThreshold_ b <= failureCount_ b).

Definition success_invariant (b : t) : Prop :=
  0 <= successCount_ b < Z.max (successThreshold_ b) 1.

(** ** Sample calls, on a clock that ticks in nanoseconds *)

Definition nanoseconds : Z := 1000000000.

Definition succeeds_at (seconds : Z) : Call :=
  mkCall (seconds * nanoseconds) (Returns "Service success"%string)
         (seconds * nanoseconds).

Definition fails_at (seconds : Z) : Call :=
  mkCall (seconds * nanoseconds)
         (Throws (std_exception "Service failed"%string))
         (seconds * nanoseconds).

Definition throws_int_at (seconds : Z) : Call :=
  mkCall (seconds * nanoseconds) (Throws foreign_exception)
         (seconds * nanoseconds).

(** [CircuitBreaker cb(1, 5, 2)]: one failure opens it, a success after the
    retry time is a first trial success. *)
Definition on_trial : t :=
  run nanoseconds (constructed 1 5 2 0) [fails_at 1; succeeds_at 6].

(** ... and a failure of the next trial call opens it again. *)
Definition reopened : t := step nanoseconds on_trial (fails_at 7).

(** [CircuitBreaker cb(3, 5, 2)] after three failures: OPEN. *)
Definition tripped : t :=
  run nanoseconds (constructed 3 5 2 0) [fails_at 1; fails_at 2; fails_at 3].

(** [tripped] after a first trial success, and the values of the object
    while the second trial success closes it. *)
Definition second_trial : t := step nanoseconds tripped (succeeds_at 8).

Definition closing_history : list t :=
  second_trial :: execute_writes nanoseconds second_trial (succeeds_at 9).

(** [INT_MAX - 1] failing calls. *)
Definition many_failures : list Call :=
  replicate (Z.to_nat (INT_MAX - 1)) (fails_at 1).

(** ** Streaks, decided call by call *)

(** No prefix of [os] ends in a run of [f] failures, [acc] being the
    length of the run of failures that precedes [os]. *)
Fixpoint streaks_below (f acc : Z) (os : list (completion string)) : bool :=
  match os with
  | [] => true
  | o :: os' =>
      (streak acc [o] <? f) && streaks_below f (streak acc [o]) os'
  end.

(** ** The simulated service and [main] *)

(** [externalService()].  [attempt] is the value of the function's static
    counter before the call, and the counter after the call is returned with
    the completion.  ([attempt++] is on a plain [int]: it is defined as long
    as [attempt < INT_MAX].)  [%] is the remainder of the truncating
    division; [std::runtime_error] is a [std::exception]. *)
Definition externalService (attempt : Z) : completion string * Z :=
  let attempt1 := attempt + 1 in
  if negb (attempt1 `rem` 3 =? 0)
  then (Throws (std_exception "Service failed"%string), attempt1)
  else (Returns "Service success"%string, attempt1).

(** [cb.execute(externalService)] with the clock reading [check] in the
    OPEN test and [fail] in [onFailure].  The static counter advances only
    if [execute] calls the function. *)
Definition execute_externalService (ticks_per_second : Z) (cb : t)
    (attempt : Z) (check fail : Z) : completion string * t * Z :=
  let x := execute ticks_per_second cb
             (mkCall check (externalService attempt).1 fail) in
  (result_of x, breaker_of x,
   match invocations (log_of x) with
   | O => attempt
   | S _ => (externalService attempt).2
   end).

(** The lines written to [std::cout] and to [std::cerr], oldest first. *)
Record Console : Type := mkConsole {
  cout : list string;
  cerr : list string
}.

(** [metrics[key]] on the [std::map]: the value, or 0 for a key that is not
    there. *)
Definition metric (metrics : gmap string Z) (key : string) : Z :=
  default 0 (metrics !! key).

(** The conditional expression that names the state in [main]. *)
Definition state_name (currentState : Z) : string :=
  if currentState =? 0 then "CLOSED"%string
  else if currentState =? 1 then "OPEN"%string
  else "HALF_OPEN"%string.

Definition metrics_line (metrics : gmap string Z) : string :=
  ("Failure count: " +:+ pretty (metric metrics "failureCount")
   +:+ ", Success count: " +:+ pretty (metric metrics "successCount")
   +:+ ", Circuit state: " +:+ state_name (metric metrics "currentState"))%string.

(** One iteration of the loop of [main], up to the [sleep_for]: the call in
    its [try] block, the handler for [std::exception], and the metrics
    line.  An exception that the handler does not match leaves [main]. *)
Definition loop_body (ticks_per_second : Z) (st : t * Z * Console)
    (clock : Z * Z) : completion (t * Z * Console) :=
  let '(cb, attempt, out) := st in
  let '(r, cb1, attempt1) :=
    execute_externalService ticks_per_second cb attempt clock.1 clock.2 in
  match r with
  | Throws foreign_exception => Throws foreign_exception
  | _ =>
      let out1 :=
        match r with
        | Returns result => mkConsole (cout out ++ [result]) (cerr out)
        | Throws (std_exception what) =>
            mkConsole (cout out) (cerr out ++ [("Error: " +:+ what)%string])
        | Throws foreign_exception => out
        end in
      let '(metrics, cb2) := getMetrics cb1 in
      Returns (cb2, attempt1,
               mkConsole (cout out1 ++ [metrics_line metrics]) (cerr out1))
  end.

(** The loop, with one pair of clock readings for each iteration: the state
    in which the loop is left, and how [main] completes (by [return 0], or by
    an exception). *)
Fixpoint main_loop (ticks_per_second : Z) (clocks : list (Z * Z))
    (st : t * Z * Console) : (t * Z * Console) * completion Z :=
  match clocks with
  | [] => (st, Returns 0)
  | clock :: clocks' =>
      match loop_body ticks_per_second st clock with
      | Returns st1 => main_loop ticks_per_second clocks' st1
      | Throws e => (st, Throws e)
      end
  end.

(** [main()]: [now] is the clock's reading in the constructor and [clock i]
    the pair of readings in iteration [i]. *)
Definition main (ticks_per_second : Z) (now : Z) (clock : nat -> Z * Z)
    : Console * completion Z :=
  match CircuitBreaker 3 5 2 now with
  | Returns cb =>
      let x := main_loop ticks_per_second (map clock (seq 0 10))
                 (cb, 0, mkConsole [] []) in
      (x.1.2, x.2)
  | Throws e => (mkConsole [] [], Throws e)
  end.

(** The two lines that one iteration prints when the object is CLOSED with
    [successCount_ = 0], [attempt] being the counter before the call. *)
Definition closed_lines (attempt : Z) : list string :=
  [ (if (attempt + 1) `mod` 3 =? 0
     then "Service success"%string else fallback);
    ("Failure count: " +:+ pretty ((attempt + 1) `mod` 3)
     +:+ ", Success count: 0, Circuit state: CLOSED")%string ].

Fixpoint closed_output (attempt : Z) (n : nat) : list string :=
  match n with
  | O => []
  | S n' => closed_lines attempt ++ closed_output (attempt + 1) n'
  end.

(** ** Properties *)

Section Properties.

Variable tps : Z.
Hypothesis tps_positive : 0 < tps.

Lemma wrap_int_id z : in_int z -> wrap_int z = z.
Proof.
  unfold in_int, wrap_int, INT_MIN, INT_MAX. intros Hz.
  rewrite Z.mod_small by lia. lia.
Qed.

Lemma wrap_int_succ z : INT_MIN - 1 <= z < INT_MAX -> wrap_int (z + 1) = z + 1.
Proof. intros Hz. apply wrap_int_id. unfold in_int. lia. Qed.

Lemma wrap_int_max : wrap_int (INT_MAX + 1) = INT_MIN.
Proof. reflexivity. Qed.

(** The truncated number of seconds compared with the retry time, in terms
    of the tick counts (two lemmas, one for each direction). *)
Lemma elapsed_reaches now last r :
  r * tps <= now - last -> r <= elapsed_seconds tps now last.
Proof.
  intros H. unfold elapsed_seconds. apply Z.quot_le_lower_bound; lia.
Qed.

Lemma elapsed_short now last r :
  0 < r \/ last <= now ->
  now - last < r * tps -> elapsed_seconds tps now last < r.
Proof.
  intros Hor H. unfold elapsed_seconds.
  destruct (Z_lt_le_dec (now - last) 0) as [Hneg|Hpos].
  - destruct Hor as [Hr|Hmono]; [|lia].
    assert ((now - last) `quot` tps <= 0 `quot` tps)
      by (apply Z.quot_le_mono; lia).
    rewrite Z.quot_0_l in * by lia. lia.
  - apply Z.quot_lt_upper_bound; lia.
Qed.

Lemma open_check_not_open now b :
  state_ b <> OPEN -> open_check tps now b = Some b.
Proof. unfold open_check. destruct (state_ b); congruence. Qed.

Lemma open_check_expired now b :
  state_ b = OPEN -> retryTime_ b * tps <= now - lastFailureTime_ b ->
  open_check tps now b = Some (set_state HALF_OPEN b).
Proof.
  intros Hs He. unfold open_check. rewrite Hs.
  pose proof (elapsed_reaches _ _ _ He).
  destruct (Z.geb_spec (elapsed_seconds tps now (lastFailureTime_ b))
                       (retryTime_ b)); [done | lia].
Qed.

Lemma open_check_cooling now b :
  state_ b = OPEN -> 0 < retryTime_ b \/ lastFailureTime_ b <= now ->
  now - lastFailureTime_ b < retryTime_ b * tps ->
  open_check tps now b = None.
Proof.
  intros Hs Hor He. unfold open_check. rewrite Hs.
  pose proof (elapsed_short _ _ _ Hor He).
  destruct (Z.geb_spec (elapsed_seconds tps now (lastFailureTime_ b))
                       (retryTime_ b)); [lia | done].
Qed.

Lemma try_call_log c b : log_of (try_call c b) = [Invoke].
Proof. unfold try_call. by destruct (func c) as [?|[?|]]. Qed.

(** The log of [execute] has one of two shapes. *)
Lemma execute_log b c :
  log_of (execute tps b c) = [Lock; Unlock] \/
  log_of (execute tps b c) = [Lock; Invoke; Unlock].
Proof.
  unfold execute. destruct (open_check tps (clock_at_check c) b) as [b1|].
  - right. pose proof (try_call_log c b1) as Hl.
    destruct (try_call c b1) as [[r b2] evs]. simpl in *. by subst.
  - by left.
Qed.

(** *** One call, case by case *)

Lemma open_check_cases now b b1 :
  open_check tps now b = Some b1 ->
  (state_ b <> OPEN /\ b1 = b) \/
  (state_ b = OPEN /\ b1 = set_state HALF_OPEN b).
Proof.
  unfold open_check. destruct (state_ b) eqn:Hs.
  - intros [= <-]. left. split; congruence.
  - destruct (_ >=? _); [|done]. intros [= <-]. by right.
  - intros [= <-]. left. split; congruence.
Qed.

Lemma step_success b c v :
  state_ b <> OPEN -> func c = Returns v -> step tps b c = onSuccess b.
Proof.
  intros Hs Hf. unfold step, execute, try_call.
  by rewrite open_check_not_open, Hf.
Qed.

Lemma step_failure b c what :
  state_ b <> OPEN -> func c = Throws (std_exception what) ->
  step tps b c = onFailure (clock_at_failure c) b.
Proof.
  intros Hs Hf. unfold step, execute, try_call.
  by rewrite open_check_not_open, Hf.
Qed.

Lemma step_foreign b c :
  state_ b <> OPEN -> func c = Throws foreign_exception -> step tps b c = b.
Proof.
  intros Hs Hf. unfold step, execute, try_call.
  by rewrite open_check_not_open, Hf.
Qed.

(** [step] as the composition of the test and the handlers. *)
Lemma step_unfold b c :
  step tps b c =
  match open_check tps (clock_at_check c) b with
  | None => b
  | Some b1 =>
      match func c with
      | Returns _ => onSuccess b1
      | Throws (std_exception _) => onFailure (clock_at_failure c) b1
      | Throws foreign_exception => b1
      end
  end.
Proof.
  unfold step, execute, try_call.
  destruct (open_check tps (clock_at_check c) b) as [b1|]; [|done].
  by destruct (func c) as [?|[?|]].
Qed.

Lemma onFailure_below now b :
  INT_MIN - 1 <= failureCount_ b < INT_MAX ->
  failureCount_ b + 1 < failureThreshold_ b ->
  onFailure now b = set_failureCount (failureCount_ b + 1) b.
Proof.
  intros Hr Hlt. unfold onFailure. rewrite wrap_int_succ by done. simpl.
  destruct (Z.geb_spec (failureCount_ b + 1) (failureThreshold_ b)); [lia|done].
Qed.

Lemma onFailure_reached now b :
  INT_MIN - 1 <= failureCount_ b < INT_MAX ->
  failureThreshold_ b <= failureCount_ b + 1 ->
  onFailure now b =
  set_lastFailureTime now
    (set_state OPEN (set_failureCount (failureCount_ b + 1) b)).
Proof.
  intros Hr Hle. unfold onFailure. rewrite wrap_int_succ by done. simpl.
  destruct (Z.geb_spec (failureCount_ b + 1) (failureThreshold_ b)); [done|lia].
Qed.

Lemma onSuccess_half_open_below b :
  state_ b = HALF_OPEN ->
  INT_MIN - 1 <= successCount_ b < INT_MAX ->
  successCount_ b + 1 < successThreshold_ b ->
  onSuccess b = set_successCount (successCount_ b + 1) b.
Proof.
  intros Hs Hr Hlt. unfold onSuccess. rewrite Hs, wrap_int_succ by done. simpl.
  destruct (Z.geb_spec (successCount_ b + 1) (successThreshold_ b)); [lia|done].
Qed.

Lemma onSuccess_half_open_reached b :
  state_ b = HALF_OPEN ->
  INT_MIN - 1 <= successCount_ b < INT_MAX ->
  successThreshold_ b <= successCount_ b + 1 ->
  onSuccess b = reset (set_successCount (successCount_ b + 1) b).
Proof.
  intros Hs Hr Hle. unfold onSuccess. rewrite Hs, wrap_int_succ by done. simpl.
  destruct (Z.geb_spec (successCount_ b + 1) (successThreshold_ b)); [done|lia].
Qed.

Lemma onSuccess_closed b :
  state_ b = CLOSED -> onSuccess b = set_failureCount 0 b.
Proof. intros Hs. unfold onSuccess. by rewrite Hs. Qed.

(** The three configuration members never change. *)
Lemma onSuccess_config b :
  failureThreshold_ (onSuccess b) = failureThreshold_ b /\
  retryTime_ (onSuccess b) = retryTime_ b /\
  successThreshold_ (onSuccess b) = successThreshold_ b.
Proof.
  unfold onSuccess. destruct (state_ b); simpl; try done.
  by destruct (_ >=? _).
Qed.

Lemma onFailure_config now b :
  failureThreshold_ (onFailure now b) = failureThreshold_ b /\
  retryTime_ (onFailure now b) = retryTime_ b /\
  successThreshold_ (onFailure now b) = successThreshold_ b.
Proof. unfold onFailure. simpl. by destruct (_ >=? _). Qed.

Lemma step_config b c :
  failureThreshold_ (step tps b c) = failureThreshold_ b /\
  retryTime_ (step tps b c) = retryTime_ b /\
  successThreshold_ (step tps b c) = successThreshold_ b.
Proof.
  rewrite step_unfold.
  destruct (open_check tps (clock_at_check c) b) as [b1|] eqn:Hc; [|done].
  assert (failureThreshold_ b1 = failureThreshold_ b /\
          retryTime_ b1 = retryTime_ b /\
          successThreshold_ b1 = successThreshold_ b) as (H1 & H2 & H3)
    by (destruct (open_check_cases _ _ _ Hc) as [[_ ->]|[_ ->]]; done).
  destruct (func c) as [v|[what|]].
  - destruct (onSuccess_config b1) as (-> & -> & ->). done.
  - destruct (onFailure_config (clock_at_failure c) b1) as (-> & -> & ->). done.
  - done.
Qed.

Lemma run_config b cs :
  failureThreshold_ (run tps b cs) = failureThreshold_ b /\
  retryTime_ (run tps b cs) = retryTime_ b /\
  successThreshold_ (run tps b cs) = successThreshold_ b.
Proof.
  revert b. induction cs as [|c cs IH]; intros b; [done|].
  simpl. destruct (IH (step tps b c)) as (-> & -> & ->). apply step_config.
Qed.

Lemma run_snoc b cs c : run tps b (cs ++ [c]) = step tps (run tps b cs) c.
Proof. unfold run. apply foldl_snoc. Qed.

Lemma run_app b cs cs' : run tps b (cs ++ cs') = run tps (run tps b cs) cs'.
Proof. unfold run. apply foldl_app. Qed.

(** *** Construction *)

(** C6 (as amended).  The constructor checks nothing: for all three
    parameters, positive or not, it completes normally and leaves an object
    that holds the parameters as given, is CLOSED, has both counters at 0
    and [lastFailureTime_] at the clock's reading. *)
Theorem constructor_accepts_any_parameters (f r s now : Z) :
  exists b : t,
    CircuitBreaker f r s now = Returns b /\
    failureThreshold_ b = f /\ retryTime_ b = r /\ successThreshold_ b = s /\
    failureCount_ b = 0 /\ successCount_ b = 0 /\
    state_ b = CLOSED /\ lastFailureTime_ b = now.
Proof. exists (constructed f r s now). by repeat split. Qed.

(** *** getMetrics *)

Lemma execute_writes_last (b : t) (c : Call) :
  last (b :: execute_writes tps b c) = Some (step tps b c).
Proof.
  rewrite step_unfold. unfold execute_writes, open_check, try_call_writes.
  assert (forall b0, last (b :: onSuccess_writes b0) = Some (onSuccess b0))
    as Hsucc.
  { intros b0. unfold onSuccess_writes, onSuccess.
    destruct (state_ b0); try done. simpl. by destruct (_ >=? _). }
  assert (forall now b0,
            last (b :: onFailure_writes now b0) = Some (onFailure now b0))
    as Hfail.
  { intros now b0. unfold onFailure_writes, onFailure. simpl.
    by destruct (_ >=? _). }
  assert (forall b0 x l, last (b0 :: x :: l) = last (b :: x :: l)) as Hhd
    by done.
  destruct (state_ b) eqn:Hs.
  - destruct (func c) as [v|[what|]]; [apply Hsucc | apply Hfail | done].
  - destruct (_ >=? _); [|done].
    destruct (func c) as [v|[what|]]; [| |done].
    + specialize (Hsucc (set_state HALF_OPEN b)).
      destruct (onSuccess_writes (set_state HALF_OPEN b)) as [|x l] eqn:Hw;
        [|by rewrite <- Hsucc].
      unfold onSuccess_writes in Hw. simpl in Hw.
      by destruct (_ >=? _) in Hw.
    + specialize (Hfail (clock_at_failure c) (set_state HALF_OPEN b)).
      destruct (onFailure_writes _ (set_state HALF_OPEN b)) as [|x l] eqn:Hw;
        [|by rewrite <- Hfail].
      unfold onFailure_writes in Hw. simpl in Hw.
      by destruct (_ >=? _) in Hw.
  - destruct (func c) as [v|[what|]]; [apply Hsucc | apply Hfail | done].
Qed.

(** C8 (as amended).  Called when no [execute] call is in progress,
    [getMetrics] returns a map with exactly the keys failureCount,
    successCount and currentState, bound to the current values of
    [failureCount_] and [successCount_] and to the number of the current
    state (0 for CLOSED, 1 for OPEN, 2 for HALF_OPEN), and it leaves the
    object unchanged.  The map is what its three reads give when all three
    are made on the same object: [getMetrics] takes no mutex, and the reads
    of a call that overlaps an [execute] need not be. *)
Theorem getMetrics_snapshot (b : t) :
  (getMetrics b).1 !! "failureCount"%string = Some (failureCount_ b) /\
  (getMetrics b).1 !! "successCount"%string = Some (successCount_ b) /\
  (getMetrics b).1 !! "currentState"%string
    = Some (match state_ b with CLOSED => 0 | OPEN => 1 | HALF_OPEN => 2 end) /\
  dom (getMetrics b).1
    = ({["failureCount"%string; "successCount"%string;
         "currentState"%string]} : gset string) /\
  (getMetrics b).2 = b /\
  (getMetrics b).1 = getMetrics_reads b b b.
Proof.
  (* the map is built from three literal keys: lookups and domain compute *)
  unfold getMetrics, getMetrics_reads. simpl.
  repeat split; reflexivity.
Qed.

(** *** The OPEN state *)

(** C2.  An [execute] on an OPEN object, with less than the retry time
    elapsed since [lastFailureTime_] (the retry time being positive),
    returns the fallback, does not call [func], and leaves the object as it
    was, so still OPEN. *)
Theorem open_cooldown_short_circuit (b : t) (c : Call) :
  state_ b = OPEN ->
  0 < retryTime_ b ->
  clock_at_check c - lastFailureTime_ b < retryTime_ b * tps ->
  result_of (execute tps b c) = Returns fallback /\
  invocations (log_of (execute tps b c)) = 0%nat /\
  breaker_of (execute tps b c) = b /\
  state_ (breaker_of (execute tps b c)) = OPEN.
Proof.
  intros Hs Hr He. unfold execute.
  rewrite open_check_cooling by auto. simpl. by repeat split.
Qed.

(** C3 (as amended).  An [execute] on an OPEN object, with at least the
    retry time elapsed since [lastFailureTime_], sets the state to
    HALF_OPEN and changes no other member ([successCount_] keeps its value),
    then calls [func], once, on the object in that state. *)
Theorem open_expired_trial_call (b : t) (c : Call) :
  state_ b = OPEN ->
  retryTime_ b * tps <= clock_at_check c - lastFailureTime_ b ->
  exists b1 : t,
    open_check tps (clock_at_check c) b = Some b1 /\
    state_ b1 = HALF_OPEN /\
    successCount_ b1 = successCount_ b /\
    failureCount_ b1 = failureCount_ b /\
    lastFailureTime_ b1 = lastFailureTime_ b /\
    execute tps b c = lock_guard (try_call c b1) /\
    invocations (log_of (execute tps b c)) = 1%nat.
Proof.
  intros Hs He. exists (set_state HALF_OPEN b).
  pose proof (open_check_expired _ _ Hs He) as Hc.
  repeat split; try done.
  - unfold execute. by rewrite Hc.
  - unfold execute. rewrite Hc.
    pose proof (try_call_log c (set_state HALF_OPEN b)) as Hl.
    destruct (try_call c (set_state HALF_OPEN b)) as [[r b2] evs].
    simpl in *. by subst.
Qed.

(** *** What the caller of execute receives *)

Lemma execute_foreign_exception (b b1 : t) (c : Call) :
  open_check tps (clock_at_check c) b = Some b1 ->
  func c = Throws foreign_exception ->
  execute tps b c = (Throws foreign_exception, b1, [Lock; Invoke; Unlock]).
Proof. intros Hc Hf. unfold execute, try_call. by rewrite Hc, Hf. Qed.

(** C7 (as amended).  When [func] returns a value or throws an exception
    derived from [std::exception], [execute] returns normally: the caller
    receives the value [func] returned or the fallback, and an exception of
    [func] is answered by [onFailure] and the fallback.  (An exception of
    any other type passes through [execute]: [execute_foreign_exception].) *)
Theorem execute_absorbs_std_exception (b : t) (c : Call) :
  func c <> Throws foreign_exception ->
  (exists v : string,
     result_of (execute tps b c) = Returns v /\
     (v = fallback \/ func c = Returns v)) /\
  (forall (what : string) (b1 : t),
     func c = Throws (std_exception what) ->
     open_check tps (clock_at_check c) b = Some b1 ->
     result_of (execute tps b c) = Returns fallback /\
     breaker_of (execute tps b c) = onFailure (clock_at_failure c) b1) /\
  (forall (v : string) (b1 : t),
     func c = Returns v ->
     open_check tps (clock_at_check c) b = Some b1 ->
     result_of (execute tps b c) = Returns v /\
     breaker_of (execute tps b c) = onSuccess b1).
Proof.
  intros Hf. unfold execute, try_call. split; [|split].
  - destruct (open_check tps (clock_at_check c) b) as [b1|]; [|by eauto].
    destruct (func c) as [v|[what|]]; [by eauto | by eauto | done].
  - intros what b1 Hthrow Hcheck. by rewrite Hcheck, Hthrow.
  - intros v b1 Hret Hcheck. by rewrite Hcheck, Hret.
Qed.

(** *** The mutex *)

(** C10 (as amended).  The whole body of [execute] is one critical
    section: the mutex is taken once, on entry, and released once, on
    exit, and when [func] is called it is called with the mutex held. *)
Theorem execute_single_critical_section (b : t) (c : Call) :
  critical_sections (log_of (execute tps b c)) = 1%nat /\
  head (log_of (execute tps b c)) = Some Lock /\
  last (log_of (execute tps b c)) = Some Unlock /\
  Forall (fun held => held = true)
         (held_at_invocations false (log_of (execute tps b c))).
Proof.
  destruct (execute_log b c) as [-> | ->]; simpl; repeat split; auto.
Qed.

(** *** Invariants of the counters *)

Lemma step_failure_invariant n b c :
  n < INT_MAX ->
  failure_invariant n b -> failure_invariant (n + 1) (step tps b c).
Proof.
  unfold failure_invariant at 1. intros Hn [Hfc Hopen]. rewrite step_unfold.
  destruct (open_check tps (clock_at_check c) b) as [b1|] eqn:Hc.
  2: { split; [lia | done]. }
  assert (failure_invariant n b1 /\ state_ b1 <> OPEN) as [[Hfc1 Hopen1] Hno].
  { unfold failure_invariant.
    destruct (open_check_cases _ _ _ Hc) as [[Hs ->]|[Hs ->]].
    - tauto.
    - simpl. repeat split; try tauto; try done.
      intros _. apply Hopen. congruence. }
  clear Hc Hfc Hopen.
  unfold INT_MAX, INT_MIN in *.
  destruct (func c) as [v|[what|]].
  - unfold onSuccess. destruct (state_ b1) eqn:Hs; try done.
    + split; simpl; [lia | by rewrite Hs].
    + simpl. destruct (_ >=? _); simpl.
      * split; simpl; [lia | done].
      * split; simpl; [lia | intros _; apply Hopen1; congruence].
  - destruct (Z_lt_le_dec (failureCount_ b1 + 1) (failureThreshold_ b1)).
    + rewrite onFailure_below by (unfold INT_MAX, INT_MIN; lia).
      split; simpl; [lia|]. intros Hs. specialize (Hopen1 Hs). lia.
    + rewrite onFailure_reached by (unfold INT_MAX, INT_MIN; lia).
      split; simpl; [lia | intros _; lia].
  - split; [lia | done].
Qed.

Lemma run_failure_invariant f r s t0 cs :
  Z.of_nat (length cs) <= INT_MAX ->
  failure_invariant (Z.of_nat (length cs)) (run tps (constructed f r s t0) cs).
Proof.
  induction cs as [|c cs IH] using rev_ind; intros Hlen.
  - split; simpl; [lia | done].
  - rewrite length_app in *. simpl in *. rewrite run_snoc.
    replace (Z.of_nat (length cs + 1)) with (Z.of_nat (length cs) + 1) by lia.
    apply step_failure_invariant; [lia|]. apply IH. lia.
Qed.

Lemma step_success_invariant b c :
  successThreshold_ b <= INT_MAX ->
  success_invariant b -> success_invariant (step tps b c).
Proof.
  unfold success_invariant. intros Hmax Hsc. rewrite step_unfold.
  destruct (open_check tps (clock_at_check c) b) as [b1|] eqn:Hc; [|done].
  assert (successCount_ b1 = successCount_ b /\
          successThreshold_ b1 = successThreshold_ b) as [Hsc1 Hth1]
    by (destruct (open_check_cases _ _ _ Hc) as [[_ ->]|[_ ->]]; done).
  rewrite <- Hsc1, <- Hth1 in *. clear Hc Hsc1 Hth1.
  unfold INT_MAX in *.
  destruct (func c) as [v|[what|]].
  - unfold onSuccess. destruct (state_ b1); simpl; try done.
    rewrite wrap_int_succ by (unfold INT_MAX, INT_MIN; lia).
    destruct (Z.geb_spec (successCount_ b1 + 1) (successThreshold_ b1));
      simpl; lia.
  - unfold onFailure. simpl. by destruct (_ >=? _).
  - done.
Qed.

Lemma run_success_invariant f r s t0 cs :
  s <= INT_MAX ->
  success_invariant (run tps (constructed f r s t0) cs).
Proof.
  intros Hs. induction cs as [|c cs IH] using rev_ind.
  - unfold success_invariant. simpl. lia.
  - rewrite run_snoc. apply step_success_invariant; [|done].
    destruct (run_config (constructed f r s t0) cs) as (_ & _ & ->). done.
Qed.

(** C9 (as amended).  In every state that at most [INT_MAX] calls of
    [execute] lead to from construction, if the state is OPEN or HALF_OPEN
    then [failureCount_ >= failureThreshold_] (and [failureCount_] is at
    most the number of calls made, so it has not wrapped around). *)
Theorem open_states_above_threshold (f r s t0 : Z) (cs : list Call) :
  Z.of_nat (length cs) <= INT_MAX ->
  state_ (run tps (constructed f r s t0) cs) <> CLOSED ->
  f <= failureCount_ (run tps (constructed f r s t0) cs)
    <= Z.of_nat (length cs).
Proof.
  intros Hlen Hs.
  destruct (run_failure_invariant f r s t0 cs Hlen) as [Hfc Hopen].
  specialize (Hopen Hs).
  destruct (run_config (constructed f r s t0) cs) as (Hf & _ & _).
  rewrite Hf in Hopen. simpl in Hopen. lia.
Qed.

(** *** The HALF_OPEN state *)


Lemma successes_keep_closed (succs : list Call) (b : t) :
  Forall (fun c => exists v, func c = Returns v) succs ->
  state_ b = CLOSED -> failureCount_ b = 0 -> successCount_ b = 0 ->
  state_ (run tps b succs) = CLOSED /\
  failureCount_ (run tps b succs) = 0 /\
  successCount_ (run tps b succs) = 0.
Proof.
  intros Hall. revert b.
  induction Hall as [|c succs [v Hv] _ IH]; intros b Hs Hfc Hsc; [done|].
  simpl. apply IH.
  all: rewrite (step_success b c v) by congruence;
       rewrite onSuccess_closed by done; done.
Qed.

Lemma successes_close_half_open (succs : list Call) (b : t) :
  Forall (fun c => exists v, func c = Returns v) succs ->
  state_ b = HALF_OPEN ->
  0 <= successCount_ b < successThreshold_ b ->
  successThreshold_ b <= INT_MAX ->
  successThreshold_ b <= successCount_ b + Z.of_nat (length succs) ->
  state_ (run tps b succs) = CLOSED /\
  failureCount_ (run tps b succs) = 0 /\
  successCount_ (run tps b succs) = 0.
Proof.
  intros Hall. revert b.
  induction Hall as [|c succs [v Hv] Hall IH]; intros b Hs Hsc Hmax Hlen.
  { simpl in Hlen. lia. }
  simpl in *. rewrite (step_success b c v) by congruence.
  destruct (Z_lt_le_dec (successCount_ b + 1) (successThreshold_ b)).
  - rewrite onSuccess_half_open_below by (unfold INT_MIN; lia || done).
    apply IH; simpl; lia || done.
  - rewrite onSuccess_half_open_reached by (unfold INT_MIN; lia || done).
    by apply successes_keep_closed.
Qed.


(** *** The CLOSED state *)

Lemma streak_snoc acc os o : streak acc (os ++ [o]) = streak (streak acc os) [o].
Proof.
  revert acc. induction os as [|[v|[what|]] os IH]; intros acc; simpl; auto.
Qed.

(** [streak] counts the failures since the last success. *)
Lemma streak_failures acc (os : list (completion string)) :
  Forall (fun o => exists what, o = Throws (std_exception what)) os ->
  streak acc os = acc + Z.of_nat (length os).
Proof.
  intros Hall. revert acc.
  induction Hall as [|o os [what ->] _ IH]; intros acc; simpl; [lia|].
  rewrite IH. lia.
Qed.

Lemma streak_after_success acc pre v (os : list (completion string)) :
  Forall (fun o => exists what, o = Throws (std_exception what)) os ->
  streak acc (pre ++ Returns v :: os) = Z.of_nat (length os).
Proof.
  intros Hall. revert acc.
  induction pre as [|[w|[what|]] pre IH]; intros acc; simpl; auto.
  by rewrite streak_failures.
Qed.

Lemma closed_throughout_cons b c cs :
  closed_throughout tps b (c :: cs) = true ->
  state_ b = CLOSED /\ closed_throughout tps (step tps b c) cs = true.
Proof.
  simpl. intros [Hb Hrest]%andb_prop.
  by apply bool_decide_eq_true_1 in Hb.
Qed.

Lemma closed_throughout_head b cs :
  closed_throughout tps b cs = true -> state_ b = CLOSED.
Proof.
  destruct cs; simpl; intros [Hb _]%andb_prop;
    by apply bool_decide_eq_true_1 in Hb.
Qed.

(** While the object stays CLOSED, [failureCount_] is the streak. *)
Lemma closed_run_streak (cs : list Call) (b : t) :
  0 <= failureCount_ b < failureThreshold_ b ->
  failureThreshold_ b <= INT_MAX ->
  closed_throughout tps b cs = true ->
  state_ (run tps b cs) = CLOSED /\
  failureCount_ (run tps b cs) = streak (failureCount_ b) (outcomes cs) /\
  0 <= failureCount_ (run tps b cs) < failureThreshold_ b.
Proof.
  revert b. induction cs as [|c cs IH]; intros b Hfc Hmax Hcl.
  { apply closed_throughout_head in Hcl. by simpl. }
  apply closed_throughout_cons in Hcl as [Hs Hcl].
  pose proof (closed_throughout_head _ _ Hcl) as Hs'.
  destruct (step_config b c) as (Hth & _ & _).
  simpl. revert Hs' Hcl IH Hth. unfold INT_MAX in *.
  destruct (func c) as [v|[what|]] eqn:Hf.
  - rewrite (step_success b c v) by congruence.
    rewrite onSuccess_closed by done. intros Hs' Hcl IH Hth.
    apply (IH _) in Hcl; simpl in *; [done | lia | unfold INT_MAX; lia].
  - rewrite (step_failure b c what) by congruence.
    destruct (Z_lt_le_dec (failureCount_ b + 1) (failureThreshold_ b)).
    + rewrite onFailure_below by (unfold INT_MIN, INT_MAX; lia).
      intros Hs' Hcl IH Hth.
      apply (IH _) in Hcl; simpl in *; [done | lia | unfold INT_MAX; lia].
    + rewrite onFailure_reached by (unfold INT_MIN, INT_MAX; lia).
      simpl. done.
  - rewrite (step_foreign b c) by congruence. intros Hs' Hcl IH Hth.
    apply (IH _) in Hcl; [done | lia | unfold INT_MAX; lia].
Qed.

(** C1 (as amended).  Start from a CLOSED object with [failureCount_ = 0]
    and a positive failure threshold, and let [cs] be calls that were all
    made in state CLOSED and left it CLOSED.  Then [failureCount_] is the
    number of failures signalled by a [std::exception] since the last
    success, a call whose [func] throws anything else being neither counted
    nor a reset ([streak]); the next call [c] leaves the object OPEN exactly
    when it brings that number to [failureThreshold_]; and if [c] succeeds
    the object stays CLOSED with [failureCount_ = 0]. *)
Theorem closed_trips_on_threshold_streak (b : t) (cs : list Call) (c : Call) :
  state_ b = CLOSED ->
  failureCount_ b = 0 ->
  0 < failureThreshold_ b <= INT_MAX ->
  closed_throughout tps b cs = true ->
  failureCount_ (run tps b cs) = streak 0 (outcomes cs) /\
  (state_ (run tps b (cs ++ [c])) = OPEN <->
   streak 0 (outcomes (cs ++ [c])) = failureThreshold_ b) /\
  (forall v : string,
     func c = Returns v ->
     state_ (run tps b (cs ++ [c])) = CLOSED /\
     failureCount_ (run tps b (cs ++ [c])) = 0).
Proof.
  intros Hs Hfc Hth Hcl.
  destruct (closed_run_streak cs b) as (Hs' & Hfc' & Hrange);
    [lia | lia | done |].
  rewrite Hfc in Hfc'.
  destruct (run_config b cs) as (Hth' & _ & _).
  unfold outcomes. rewrite map_app. change (map func [c]) with [func c].
  rewrite streak_snoc. fold (outcomes cs).
  rewrite <- Hfc', run_snoc. simpl. unfold INT_MAX in *.
  split; [done|]. split.
  - destruct (func c) as [v|[what|]] eqn:Hf; simpl.
    + rewrite (step_success _ c v) by congruence.
      rewrite onSuccess_closed by done. simpl. rewrite Hs'.
      split; [done | lia].
    + rewrite (step_failure _ c what) by congruence.
      destruct (Z_lt_le_dec (failureCount_ (run tps b cs) + 1)
                            (failureThreshold_ b)).
      * rewrite onFailure_below
          by (rewrite ?Hth'; unfold INT_MIN, INT_MAX; lia).
        simpl. rewrite Hs'. split; [done | lia].
      * rewrite onFailure_reached
          by (rewrite ?Hth'; unfold INT_MIN, INT_MAX; lia).
        simpl. split; [lia | done].
    + rewrite (step_foreign _ c) by congruence. rewrite Hs'.
      split; [done | lia].
  - intros v Hf. rewrite (step_success _ c v) by congruence.
    rewrite onSuccess_closed by done. by simpl.
Qed.

(** A run of failures below the threshold only counts. *)
Lemma run_failures_closed (n : nat) (b : t) (c : Call) (what : string) :
  func c = Throws (std_exception what) ->
  state_ b = CLOSED ->
  0 <= failureCount_ b ->
  failureCount_ b + Z.of_nat n < failureThreshold_ b ->
  failureThreshold_ b <= INT_MAX ->
  run tps b (replicate n c) =
  set_failureCount (failureCount_ b + Z.of_nat n) b.
Proof.
  intros Hf. revert b.
  induction n as [|n IH]; intros b Hs Hfc Hlt Hmax.
  { destruct b. unfold set_failureCount. simpl. f_equal. lia. }
  rewrite replicate_S. simpl. unfold INT_MAX in *.
  rewrite (step_failure b c what) by congruence.
  rewrite onFailure_below by (unfold INT_MIN, INT_MAX; lia).
  rewrite IH; simpl; try done; try lia.
  unfold set_failureCount. simpl. f_equal. lia.
Qed.

(** *** Further properties of the state machine *)

(** X1.  The three configuration members are never written after
    construction: whatever the calls and their outcomes, they keep their
    values. *)
Theorem configuration_is_immutable (b : t) (cs : list Call) :
  failureThreshold_ (run tps b cs) = failureThreshold_ b /\
  retryTime_ (run tps b cs) = retryTime_ b /\
  successThreshold_ (run tps b cs) = successThreshold_ b.
Proof. apply run_config. Qed.

Lemma step_closed_invariant b c :
  failureThreshold_ b <= INT_MAX ->
  (state_ b = CLOSED ->
   successCount_ b = 0 /\
   0 <= failureCount_ b < Z.max (failureThreshold_ b) 1) ->
  state_ (step tps b c) = CLOSED ->
  successCount_ (step tps b c) = 0 /\
  0 <= failureCount_ (step tps b c) < Z.max (failureThreshold_ b) 1.
Proof.
  intros Hmax Hinv. rewrite step_unfold.
  destruct (open_check tps (clock_at_check c) b) as [b1|] eqn:Hc; [|done].
  unfold INT_MAX in *.
  destruct (open_check_cases _ _ _ Hc) as [[Hs ->]|[Hs ->]]; clear Hc.
  - destruct (func c) as [v|[what|]]; [| |done].
    + unfold onSuccess. destruct (state_ b) eqn:Hst; simpl; try done.
      * intros _. split; [tauto|lia].
      * destruct (_ >=? _); simpl; [intros _; lia | by rewrite Hst].
    + destruct (state_ b) eqn:Hst; [|done|].
      * destruct Hinv as [Hsc Hfc]; [done|].
        destruct (Z_lt_le_dec (failureCount_ b + 1) (failureThreshold_ b)).
        -- rewrite onFailure_below by (unfold INT_MIN, INT_MAX; lia).
           simpl. intros _. lia.
        -- rewrite onFailure_reached by (unfold INT_MIN, INT_MAX; lia).
           done.
      * unfold onFailure. simpl. destruct (_ >=? _); simpl; by rewrite ?Hst.
  - destruct (func c) as [v|[what|]]; [| |done].
    + unfold onSuccess. simpl. destruct (_ >=? _); simpl; [intros _; lia|done].
    + unfold onFailure. simpl. destruct (_ >=? _); simpl; done.
Qed.

(** X2.  In every CLOSED state that calls of [execute] lead to from
    construction, however many, [successCount_] is 0 and [failureCount_] is
    at least 0 and below the failure threshold (below 1 if the threshold is
    not positive). *)
Theorem closed_state_counters (f r s t0 : Z) (cs : list Call) :
  f <= INT_MAX ->
  state_ (run tps (constructed f r s t0) cs) = CLOSED ->
  successCount_ (run tps (constructed f r s t0) cs) = 0 /\
  0 <= failureCount_ (run tps (constructed f r s t0) cs) < Z.max f 1.
Proof.
  intros Hmax. induction cs as [|c cs IH] using rev_ind.
  - simpl. lia.
  - rewrite run_snoc.
    destruct (run_config (constructed f r s t0) cs) as (Hth & _ & _).
    simpl in Hth. intros Hs.
    pose proof (step_closed_invariant (run tps (constructed f r s t0) cs) c)
      as Hstep.
    rewrite Hth in Hstep. by apply Hstep.
Qed.

(** X3.  After any sequence of whole [execute] calls from construction,
    [successCount_] is at least 0 and below the success threshold (below 1 if
    the threshold is not positive).  Inside a further call it can touch the
    threshold, between the increment and [reset()], but at every assignment
    of that call it is at least 0 and at most the threshold (at most 1 if
    the threshold is not positive): that is the range of what a reader
    without the mutex can find in [successCount_]. *)
Theorem success_count_below_threshold (f r s t0 : Z) (cs : list Call)
    (c : Call) :
  s <= INT_MAX ->
  0 <= successCount_ (run tps (constructed f r s t0) cs) < Z.max s 1 /\
  Forall (fun b' => 0 <= successCount_ b' <= Z.max s 1)
         (execute_writes tps (run tps (constructed f r s t0) cs) c).
Proof.
  intros Hmax.
  pose proof (run_success_invariant f r s t0 cs Hmax) as Hinv.
  unfold success_invariant in Hinv.
  destruct (run_config (constructed f r s t0) cs) as (_ & _ & Hth).
  rewrite Hth in Hinv. simpl in Hinv. split; [done|].
  set (b := run tps (constructed f r s t0) cs) in *. simpl in Hth.
  assert (forall b0, successCount_ b0 = successCount_ b ->
                     successThreshold_ b0 = s ->
            Forall (fun b' => 0 <= successCount_ b' <= Z.max s 1)
                   (try_call_writes c b0)) as Htry.
  { intros b0 Hsc0 Hth0. unfold try_call_writes, INT_MAX in *.
    destruct (func c) as [v|[what|]]; [| |done].
    - unfold onSuccess_writes. destruct (state_ b0).
      + repeat constructor; simpl; lia.
      + repeat constructor; simpl; lia.
      + simpl. rewrite wrap_int_succ by (unfold INT_MIN, INT_MAX; lia).
        destruct (_ >=? _); repeat constructor; simpl; lia.
    - unfold onFailure_writes. simpl.
      destruct (_ >=? _); repeat constructor; simpl; lia. }
  unfold execute_writes. destruct (state_ b).
  - by apply Htry.
  - destruct (_ >=? _); [|done]. constructor; [simpl; lia|]. by apply Htry.
  - by apply Htry.
Qed.

(** X4.  [lastFailureTime_] is written only on the way into OPEN: if a call
    changes it, then [func] threw a [std::exception], the object is OPEN
    afterwards, and the new value is the clock's reading in [onFailure]. *)
Theorem lastFailureTime_written_on_opening (b : t) (c : Call) :
  lastFailureTime_ (step tps b c) <> lastFailureTime_ b ->
  state_ (step tps b c) = OPEN /\
  lastFailureTime_ (step tps b c) = clock_at_failure c /\
  exists what : string, func c = Throws (std_exception what).
Proof.
  rewrite step_unfold.
  destruct (open_check tps (clock_at_check c) b) as [b1|] eqn:Hc; [|done].
  assert (lastFailureTime_ b1 = lastFailureTime_ b) as <-
    by (destruct (open_check_cases _ _ _ Hc) as [[_ ->]|[_ ->]]; done).
  destruct (func c) as [v|[what|]]; [| |done].
  - unfold onSuccess. destruct (state_ b1); simpl; try done.
    by destruct (_ >=? _).
  - unfold onFailure. simpl. destruct (_ >=? _); simpl; [|done].
    intros _. eauto.
Qed.

(** X5.  [execute] calls [func] at most once.  It does not call it exactly
    when the object is OPEN and the whole seconds elapsed since
    [lastFailureTime_] are fewer than [retryTime_]; it then returns the
    fallback and leaves the object as it was. *)
Theorem execute_invokes_at_most_once (b : t) (c : Call) :
  (invocations (log_of (execute tps b c)) <= 1)%nat /\
  (invocations (log_of (execute tps b c)) = 0%nat <->
   state_ b = OPEN /\
   elapsed_seconds tps (clock_at_check c) (lastFailureTime_ b)
     < retryTime_ b) /\
  (invocations (log_of (execute tps b c)) = 0%nat ->
   execute tps b c = (Returns fallback, b, [Lock; Unlock])).
Proof.
  unfold execute, open_check.
  destruct (state_ b) eqn:Hs.
  - pose proof (try_call_log c b) as Hl.
    destruct (try_call c b) as [[r b2] evs]. simpl in *. subst evs. simpl.
    repeat split; try lia; try done. by intros [? _].
  - destruct (Z.geb_spec (elapsed_seconds tps (clock_at_check c)
                            (lastFailureTime_ b)) (retryTime_ b)).
    + pose proof (try_call_log c (set_state HALF_OPEN b)) as Hl.
      destruct (try_call c (set_state HALF_OPEN b)) as [[r b2] evs].
      simpl in *. subst evs. simpl.
      repeat split; try lia; try done.
    + simpl. repeat split; try lia; done.
  - pose proof (try_call_log c b) as Hl.
    destruct (try_call c b) as [[r b2] evs]. simpl in *. subst evs. simpl.
    repeat split; try lia; try done. by intros [? _].
Qed.

Lemma invoked_open_check b c :
  invocations (log_of (execute tps b c)) = 1%nat ->
  exists b1 : t,
    open_check tps (clock_at_check c) b = Some b1 /\
    state_ b1 <> OPEN /\
    execute tps b c = lock_guard (try_call c b1).
Proof.
  unfold execute.
  destruct (open_check tps (clock_at_check c) b) as [b1|] eqn:Hc; [|done].
  intros _. exists b1. split; [done|]. split; [|done].
  destruct (open_check_cases _ _ _ Hc) as [[Hs ->]|[Hs ->]]; done.
Qed.

(** X6.  While less than the (positive) retry time has elapsed since
    [lastFailureTime_], an OPEN object absorbs any number of calls: each
    returns the fallback without calling [func], and the object is left
    exactly as it was. *)
Theorem open_absorbs_calls_during_cooldown (b : t) (cs : list Call) :
  state_ b = OPEN ->
  0 < retryTime_ b ->
  Forall (fun c => clock_at_check c - lastFailureTime_ b
                     < retryTime_ b * tps) cs ->
  run tps b cs = b /\
  Forall (fun c => execute tps b c = (Returns fallback, b, [Lock; Unlock])) cs.
Proof.
  intros Hs Hr Hall.
  assert (forall c, clock_at_check c - lastFailureTime_ b < retryTime_ b * tps
                    -> execute tps b c = (Returns fallback, b, [Lock; Unlock]))
    as Hone.
  { intros c Hc. unfold execute. by rewrite open_check_cooling by auto. }
  induction Hall as [|c cs Hc Hall [IHrun IHall]]; [done|].
  split.
  - simpl. unfold step. rewrite (Hone c Hc). done.
  - constructor; [by apply Hone | done].
Qed.

(** X7.  When [execute] calls [func] and [func] returns a value, the caller
    receives that value and the object is not OPEN afterwards. *)
Theorem returned_value_is_passed_on (b : t) (c : Call) (v : string) :
  func c = Returns v ->
  invocations (log_of (execute tps b c)) = 1%nat ->
  result_of (execute tps b c) = Returns v /\
  state_ (step tps b c) <> OPEN.
Proof.
  intros Hf Hinv. unfold step.
  destruct (invoked_open_check b c Hinv) as (b1 & _ & Hno & ->).
  unfold try_call. rewrite Hf. simpl. split; [done|].
  unfold onSuccess. destruct (state_ b1) eqn:Hs1; simpl; try done.
  - by rewrite Hs1.
  - destruct (_ >=? _); simpl; [done | by rewrite Hs1].
Qed.

(** X8.  HALF_OPEN is entered only from OPEN, and only when the whole
    seconds elapsed since [lastFailureTime_] have reached [retryTime_]. *)
Theorem half_open_entered_from_open (b : t) (c : Call) :
  state_ (step tps b c) = HALF_OPEN ->
  state_ b <> HALF_OPEN ->
  state_ b = OPEN /\
  retryTime_ b
    <= elapsed_seconds tps (clock_at_check c) (lastFailureTime_ b).
Proof.
  rewrite step_unfold. unfold open_check.
  destruct (state_ b) eqn:Hs; [| |done].
  - intros Hst _. exfalso. revert Hst.
    destruct (func c) as [v|[what|]].
    + rewrite onSuccess_closed by done. simpl. by rewrite Hs.
    + unfold onFailure. simpl. destruct (_ >=? _); simpl; by rewrite ?Hs.
    + by rewrite Hs.
  - destruct (Z.geb_spec (elapsed_seconds tps (clock_at_check c)
                            (lastFailureTime_ b)) (retryTime_ b)).
    + done.
    + by rewrite Hs.
Qed.

(** X9.  A CLOSED object leaves CLOSED only for OPEN, and only through a
    [std::exception] of [func] that brings [failureCount_] to
    [failureThreshold_] or above; [lastFailureTime_] is then the clock's
    reading in [onFailure]. *)
Theorem closed_left_only_by_failure (b : t) (c : Call) :
  state_ b = CLOSED ->
  state_ (step tps b c) <> CLOSED ->
  state_ (step tps b c) = OPEN /\
  (exists what : string, func c = Throws (std_exception what)) /\
  failureThreshold_ b <= failureCount_ (step tps b c) /\
  lastFailureTime_ (step tps b c) = clock_at_failure c.
Proof.
  intros Hs. destruct (func c) as [v|[what|]] eqn:Hf.
  - rewrite (step_success b c v) by congruence.
    rewrite onSuccess_closed by done. simpl. congruence.
  - rewrite (step_failure b c what) by congruence.
    unfold onFailure. simpl.
    destruct (Z.geb_spec (wrap_int (failureCount_ b + 1))
                         (failureThreshold_ b)); simpl.
    + intros _. eauto.
    + congruence.
  - rewrite (step_foreign b c) by congruence. congruence.
Qed.

(** X10.  With a retry time of 0 or less (the constructor accepts it) an
    OPEN object never answers by the fallback alone: as long as the clock
    has not gone back behind [lastFailureTime_], every call is a trial
    call. *)
Theorem nonpositive_retryTime_always_tries (b : t) (c : Call) :
  state_ b = OPEN ->
  retryTime_ b <= 0 ->
  lastFailureTime_ b <= clock_at_check c ->
  open_check tps (clock_at_check c) b = Some (set_state HALF_OPEN b) /\
  invocations (log_of (execute tps b c)) = 1%nat.
Proof.
  intros Hs Hr Hclock.
  assert (open_check tps (clock_at_check c) b = Some (set_state HALF_OPEN b))
    as Hc by (apply open_check_expired; [done | nia]).
  split; [done|]. unfold execute. rewrite Hc.
  pose proof (try_call_log c (set_state HALF_OPEN b)) as Hl.
  destruct (try_call c (set_state HALF_OPEN b)) as [[res b2] evs].
  simpl in *. by subst.
Qed.

(** X11.  With a failure threshold of 1 or less (0 and negative values
    included), every call in which [func] is called and throws a
    [std::exception] leaves the object OPEN, in any state that fewer than
    [INT_MAX] calls lead to from construction. *)
Theorem failureThreshold_at_most_one (f r s t0 : Z) (cs : list Call)
    (c : Call) (what : string) :
  f <= 1 ->
  Z.of_nat (length cs) < INT_MAX ->
  func c = Throws (std_exception what) ->
  invocations (log_of (execute tps (run tps (constructed f r s t0) cs) c))
    = 1%nat ->
  state_ (step tps (run tps (constructed f r s t0) cs) c) = OPEN.
Proof.
  intros Hf Hlen Hthrow Hinv.
  assert (Z.of_nat (length cs) <= INT_MAX) as Hlen' by lia.
  destruct (run_failure_invariant f r s t0 cs Hlen') as [Hfc _].
  destruct (run_config (constructed f r s t0) cs) as (Hth & _ & _).
  simpl in Hth. unfold step.
  destruct (invoked_open_check _ c Hinv) as (b1 & Hc & _ & ->).
  assert (failureCount_ b1 = failureCount_ (run tps (constructed f r s t0) cs)
          /\ failureThreshold_ b1 = f) as [Hfc1 Hth1]
    by (destruct (open_check_cases _ _ _ Hc) as [[_ ->]|[_ ->]]; done).
  unfold try_call. rewrite Hthrow. simpl.
  rewrite onFailure_reached by (rewrite ?Hfc1, ?Hth1; unfold INT_MIN; lia).
  done.
Qed.

(** X12.  With a success threshold of 1 or less, in every state other than
    CLOSED that calls lead to from construction, a call in which [func] is
    called and returns closes the circuit at once, both counters at 0. *)
Theorem successThreshold_at_most_one (f r s t0 : Z) (cs : list Call)
    (c : Call) (v : string) :
  s <= 1 ->
  func c = Returns v ->
  state_ (run tps (constructed f r s t0) cs) <> CLOSED ->
  invocations (log_of (execute tps (run tps (constructed f r s t0) cs) c))
    = 1%nat ->
  state_ (step tps (run tps (constructed f r s t0) cs) c) = CLOSED /\
  failureCount_ (step tps (run tps (constructed f r s t0) cs) c) = 0 /\
  successCount_ (step tps (run tps (constructed f r s t0) cs) c) = 0.
Proof.
  intros Hs Hret Hnc Hinv.
  assert (s <= INT_MAX) as Hmax by (unfold INT_MAX; lia).
  pose proof (run_success_invariant f r s t0 cs Hmax) as Hsc.
  unfold success_invariant in Hsc.
  destruct (run_config (constructed f r s t0) cs) as (_ & _ & Hth).
  simpl in Hth. rewrite Hth in Hsc. unfold step.
  destruct (invoked_open_check _ c Hinv) as (b1 & Hc & Hno & ->).
  assert (successCount_ b1 = successCount_ (run tps (constructed f r s t0) cs)
          /\ successThreshold_ b1 = s /\ state_ b1 = HALF_OPEN)
    as (Hsc1 & Hth1 & Hst1).
  { destruct (open_check_cases _ _ _ Hc) as [[Hs0 ->]|[Hs0 ->]];
      repeat split; try done.
    destruct (state_ (run tps (constructed f r s t0) cs)); congruence. }
  unfold try_call. rewrite Hret. simpl.
  rewrite onSuccess_half_open_reached
    by (rewrite ?Hsc1, ?Hth1; unfold INT_MIN, INT_MAX; lia || done).
  done.
Qed.

(** X13.  From a CLOSED object whose [failureCount_] is below its failure
    threshold, the object stays CLOSED through a sequence of calls exactly
    when no run of failures (counting those already in [failureCount_])
    reaches the threshold; the clock plays no part in it. *)
Theorem closed_throughout_iff_short_streaks (b : t) (cs : list Call) :
  state_ b = CLOSED ->
  0 <= failureCount_ b < failureThreshold_ b ->
  failureThreshold_ b <= INT_MAX ->
  closed_throughout tps b cs
  = streaks_below (failureThreshold_ b) (failureCount_ b) (outcomes cs).
Proof.
  revert b. induction cs as [|c cs IH]; intros b Hs Hfc Hmax.
  { simpl. rewrite bool_decide_eq_true_2 by done. done. }
  cbn [closed_throughout outcomes map streaks_below].
  fold (outcomes cs). rewrite bool_decide_eq_true_2 by done.
  rewrite andb_true_l. unfold INT_MAX in *.
  destruct (func c) as [v|[what|]] eqn:Hf; cbn [streak].
  - rewrite (step_success b c v) by congruence.
    rewrite onSuccess_closed by done.
    rewrite IH by (simpl; unfold INT_MAX; lia || done). simpl.
    destruct (Z.ltb_spec 0 (failureThreshold_ b)); [done|lia].
  - rewrite (step_failure b c what) by congruence.
    destruct (Z_lt_le_dec (failureCount_ b + 1) (failureThreshold_ b)).
    + rewrite onFailure_below by (unfold INT_MIN, INT_MAX; lia).
      rewrite IH by (simpl; unfold INT_MAX; lia || done). simpl.
      destruct (Z.ltb_spec (failureCount_ b + 1) (failureThreshold_ b));
        [done|lia].
    + rewrite onFailure_reached by (unfold INT_MIN, INT_MAX; lia).
      destruct (Z.ltb_spec (failureCount_ b + 1) (failureThreshold_ b));
        [lia|].
      simpl. by destruct cs.
  - rewrite (step_foreign b c) by congruence.
    rewrite IH by (unfold INT_MAX; lia || done).
    destruct (Z.ltb_spec (failureCount_ b) (failureThreshold_ b)); [done|lia].
Qed.

(** X14.  An exception leaves [execute] only if [func] threw one that is
    not a [std::exception] (so [execute] never throws a [std::exception]).
    The mutex is released, the counters and [lastFailureTime_] are as
    before the call, and the state is as before or has gone from OPEN to
    HALF_OPEN. *)
Theorem execute_throws_only_foreign (b : t) (c : Call) (e : exception) :
  result_of (execute tps b c) = Throws e ->
  e = foreign_exception /\
  func c = Throws foreign_exception /\
  last (log_of (execute tps b c)) = Some Unlock /\
  failureCount_ (step tps b c) = failureCount_ b /\
  successCount_ (step tps b c) = successCount_ b /\
  lastFailureTime_ (step tps b c) = lastFailureTime_ b /\
  (state_ (step tps b c) = state_ b \/
   state_ b = OPEN /\ state_ (step tps b c) = HALF_OPEN).
Proof.
  unfold step, execute, try_call.
  destruct (open_check tps (clock_at_check c) b) as [b1|] eqn:Hc; [|done].
  destruct (func c) as [v|[what|]]; simpl; [done|done|].
  intros [= <-].
  destruct (open_check_cases _ _ _ Hc) as [[Hs ->]|[Hs ->]]; simpl;
    repeat split; auto.
Qed.

(** X15.  Recovery.  From an OPEN state that calls lead to from
    construction with a positive success threshold, [successThreshold_]
    successful calls in a row, the first of them made when the retry time
    has elapsed, leave the object CLOSED with both counters at 0. *)
Theorem open_recovers_after_retry_time (f r s t0 : Z) (cs : list Call)
    (c : Call) (succs : list Call) :
  0 < s <= INT_MAX ->
  state_ (run tps (constructed f r s t0) cs) = OPEN ->
  r * tps <= clock_at_check c
             - lastFailureTime_ (run tps (constructed f r s t0) cs) ->
  Forall (fun c => exists v, func c = Returns v) (c :: succs) ->
  Z.of_nat (length (c :: succs)) = s ->
  state_ (run tps (run tps (constructed f r s t0) cs) (c :: succs)) = CLOSED /\
  failureCount_ (run tps (run tps (constructed f r s t0) cs) (c :: succs)) = 0 /\
  successCount_ (run tps (run tps (constructed f r s t0) cs) (c :: succs)) = 0.
Proof.
  intros Hs Hst Hclock Hall Hlen.
  assert (success_invariant (run tps (constructed f r s t0) cs)) as Hinv
    by (apply run_success_invariant; lia).
  destruct (run_config (constructed f r s t0) cs) as (_ & Hr & Hth).
  simpl in Hr, Hth. unfold success_invariant in Hinv. rewrite Hth in Hinv.
  set (b := run tps (constructed f r s t0) cs) in *.
  assert (run tps b (c :: succs) = run tps (set_state HALF_OPEN b) (c :: succs))
    as ->.
  { simpl. f_equal. rewrite !step_unfold.
    rewrite open_check_expired by (rewrite ?Hr; done).
    by rewrite open_check_not_open. }
  cbn [length] in Hlen.
  apply successes_close_half_open; simpl; rewrite ?Hth; try done; lia.
Qed.

(** *** The service and [main] *)

Lemma externalService_attempt (attempt : Z) :
  0 <= attempt ->
  externalService attempt =
  if (attempt + 1) `mod` 3 =? 0
  then (Returns "Service success"%string, attempt + 1)
  else (Throws (std_exception "Service failed"%string), attempt + 1).
Proof.
  intros Ha. unfold externalService.
  rewrite Z.rem_mod_nonneg by lia. by destruct (_ =? _).
Qed.

Lemma loop_body_closed (cb : t) (attempt : Z) (out : Console) (clk : Z * Z) :
  state_ cb = CLOSED ->
  successCount_ cb = 0 ->
  0 <= attempt ->
  failureCount_ cb = attempt `mod` 3 ->
  3 <= failureThreshold_ cb <= INT_MAX ->
  loop_body tps (cb, attempt, out) clk =
  Returns (set_failureCount ((attempt + 1) `mod` 3) cb, attempt + 1,
           mkConsole (cout out ++ closed_lines attempt) (cerr out)).
Proof.
  intros Hs Hsc Ha Hfc Hth.
  unfold loop_body, execute_externalService, execute, closed_lines.
  rewrite open_check_not_open by (simpl; congruence).
  unfold try_call. cbn [func clock_at_failure].
  rewrite externalService_attempt by done.
  assert ((attempt + 1) `mod` 3 = 0 \/
          (attempt + 1) `mod` 3 = attempt `mod` 3 + 1) as Hmod.
  { pose proof (Z.mod_pos_bound attempt 3 ltac:(lia)).
    pose proof (Z.mod_pos_bound (attempt + 1) 3 ltac:(lia)).
    pose proof (Z.div_mod attempt 3 ltac:(lia)).
    pose proof (Z.div_mod (attempt + 1) 3 ltac:(lia)). lia. }
  pose proof (Z.mod_pos_bound (attempt + 1) 3 ltac:(lia)) as Hb.
  unfold INT_MAX in *.
  destruct (Z.eqb_spec ((attempt + 1) `mod` 3) 0) as [H0|Hn0]; simpl.
  - rewrite onSuccess_closed by done.
    unfold getMetrics, metrics_line, metric. simpl.
    rewrite Hsc, Hs, H0. simpl. by rewrite <- app_assoc.
  - rewrite onFailure_below by (unfold INT_MIN, INT_MAX; lia).
    unfold getMetrics, metrics_line, metric. simpl.
    rewrite Hsc, Hs, Hfc.
    replace (attempt `mod` 3 + 1) with ((attempt + 1) `mod` 3) by lia.
    simpl. by rewrite <- app_assoc.
Qed.

Lemma main_loop_closed (clocks : list (Z * Z)) (cb : t) (attempt : Z)
    (out : Console) :
  state_ cb = CLOSED ->
  successCount_ cb = 0 ->
  0 <= attempt ->
  failureCount_ cb = attempt `mod` 3 ->
  3 <= failureThreshold_ cb <= INT_MAX ->
  main_loop tps clocks (cb, attempt, out) =
  (set_failureCount ((attempt + Z.of_nat (length clocks)) `mod` 3) cb,
   attempt + Z.of_nat (length clocks),
   mkConsole (cout out ++ closed_output attempt (length clocks)) (cerr out),
   Returns 0).
Proof.
  revert cb attempt out.
  induction clocks as [|clk clocks IH]; intros cb attempt out Hs Hsc Ha Hfc Hth.
  { simpl. rewrite Z.add_0_r, app_nil_r, <- Hfc. by destruct cb, out. }
  cbn [main_loop]. rewrite loop_body_closed by done.
  rewrite IH by (simpl; lia || done).
  cbn [length closed_output cout cerr]. rewrite app_assoc.
  replace (attempt + Z.of_nat (S (length clocks)))
    with (attempt + 1 + Z.of_nat (length clocks)) by lia.
  by destruct cb.
Qed.

(** X16.  A circuit breaker with a failure threshold of 3 or more, fed by
    [externalService] from a CLOSED state in step with the service's
    counter, never opens: after any number of iterations of the loop of
    [main], under any clock, it is CLOSED with [failureCount_] equal to the
    service's counter modulo 3; every iteration called the service, nothing
    was written to [std::cerr], and the loop ended normally.  (The counter
    is an [int]: the iterations must not take it beyond [INT_MAX].) *)
Theorem service_never_opens_the_circuit (clocks : list (Z * Z)) (cb : t)
    (attempt : Z) (out : Console) :
  state_ cb = CLOSED ->
  successCount_ cb = 0 ->
  0 <= attempt ->
  attempt + Z.of_nat (length clocks) <= INT_MAX ->
  failureCount_ cb = attempt `mod` 3 ->
  3 <= failureThreshold_ cb <= INT_MAX ->
  main_loop tps clocks (cb, attempt, out) =
  (set_failureCount ((attempt + Z.of_nat (length clocks)) `mod` 3) cb,
   attempt + Z.of_nat (length clocks),
   mkConsole (cout out ++ closed_output attempt (length clocks)) (cerr out),
   Returns 0).
Proof. intros Hs Hsc Ha _ Hfc Hth. by apply main_loop_closed. Qed.

(** X17.  Whatever the clock reads, [main] returns 0, writes nothing to
    [std::cerr], and writes these twenty lines to [std::cout]: the circuit
    is reported CLOSED in every iteration. *)
Theorem main_output (now : Z) (clock : nat -> Z * Z) :
  main tps now clock =
  (mkConsole
     [ "Service is unavailable. Returning fallback response.";
       "Failure count: 1, Success count: 0, Circuit state: CLOSED";
       "Service is unavailable. Returning fallback response.";
       "Failure count: 2, Success count: 0, Circuit state: CLOSED";
       "Service success";
       "Failure count: 0, Success count: 0, Circuit state: CLOSED";
       "Service is unavailable. Returning fallback response.";
       "Failure count: 1, Success count: 0, Circuit state: CLOSED";
       "Service is unavailable. Returning fallback response.";
       "Failure count: 2, Success count: 0, Circuit state: CLOSED";
       "Service success";
       "Failure count: 0, Success count: 0, Circuit state: CLOSED";
       "Service is unavailable. Returning fallback response.";
       "Failure count: 1, Success count: 0, Circuit state: CLOSED";
       "Service is unavailable. Returning fallback response.";
       "Failure count: 2, Success count: 0, Circuit state: CLOSED";
       "Service success";
       "Failure count: 0, Success count: 0, Circuit state: CLOSED";
       "Service is unavailable. Returning fallback response.";
       "Failure count: 1, Success count: 0, Circuit state: CLOSED" ]%string
     [],
   Returns 0).
Proof.
  unfold main, CircuitBreaker.
  rewrite main_loop_closed by (simpl; unfold INT_MAX; lia || done).
  rewrite length_map, length_seq. reflexivity.
Qed.

End Properties.

(** ** The theorems at sample inputs *)

(** The run of [main]'s configuration, [CircuitBreaker cb(3, 5, 2)]: three
    failures open the circuit; a call within the retry time is answered by
    the fallback without calling the service; after the retry time two
    successes close it again. *)
Example recovery_scenario :
  let opened :=
    run nanoseconds (constructed 3 5 2 0) [fails_at 1; fails_at 2; fails_at 3]
  in
  opened = mk 3 5 2 3 0 OPEN 3000000000 /\
  execute nanoseconds opened (succeeds_at 4)
    = (Returns fallback, opened, [Lock; Unlock]) /\
  step nanoseconds opened (succeeds_at 8) = mk 3 5 2 3 1 HALF_OPEN 3000000000 /\
  run nanoseconds opened [succeeds_at 8; succeeds_at 9]
    = mk 3 5 2 0 0 CLOSED 3000000000.
Proof. repeat split; reflexivity. Qed.

Lemma closed_trips_on_threshold_streak_witness :
  (state_ (constructed 3 5 2 0) = CLOSED /\
   failureCount_ (constructed 3 5 2 0) = 0 /\
   0 < failureThreshold_ (constructed 3 5 2 0) <= INT_MAX /\
   closed_throughout nanoseconds (constructed 3 5 2 0)
     [fails_at 1; succeeds_at 2; fails_at 3; fails_at 4] = true) /\
  (state_ (run nanoseconds (constructed 3 5 2 0)
             ([fails_at 1; succeeds_at 2; fails_at 3; fails_at 4]
              ++ [fails_at 5])) = OPEN <->
   streak 0 (outcomes ([fails_at 1; succeeds_at 2; fails_at 3; fails_at 4]
                       ++ [fails_at 5]))
     = failureThreshold_ (constructed 3 5 2 0)).
Proof.
  assert (state_ (constructed 3 5 2 0) = CLOSED) as H1 by reflexivity.
  assert (failureCount_ (constructed 3 5 2 0) = 0) as H2 by reflexivity.
  assert (0 < failureThreshold_ (constructed 3 5 2 0) <= INT_MAX) as H3
    by (unfold INT_MAX; simpl; lia).
  assert (closed_throughout nanoseconds (constructed 3 5 2 0)
            [fails_at 1; succeeds_at 2; fails_at 3; fails_at 4] = true) as H4
    by (vm_compute; reflexivity).
  split; [by repeat split|].
  exact (proj1 (proj2 (closed_trips_on_threshold_streak nanoseconds
                         (constructed 3 5 2 0)
                         [fails_at 1; succeeds_at 2; fails_at 3; fails_at 4]
                         (fails_at 5) H1 H2 H3 H4))).
Defined.

Lemma open_cooldown_short_circuit_witness :
  (0 < nanoseconds /\
   state_ reopened = OPEN /\
   0 < retryTime_ reopened /\
   clock_at_check (succeeds_at 11) - lastFailureTime_ reopened
     < retryTime_ reopened * nanoseconds) /\
  (result_of (execute nanoseconds reopened (succeeds_at 11))
     = Returns fallback /\
   invocations (log_of (execute nanoseconds reopened (succeeds_at 11)))
     = 0%nat /\
   breaker_of (execute nanoseconds reopened (succeeds_at 11)) = reopened /\
   state_ (breaker_of (execute nanoseconds reopened (succeeds_at 11))) = OPEN).
Proof.
  assert (0 < nanoseconds) as H0 by reflexivity.
  assert (state_ reopened = OPEN) as H1 by reflexivity.
  assert (0 < retryTime_ reopened) as H2 by reflexivity.
  assert (clock_at_check (succeeds_at 11) - lastFailureTime_ reopened
            < retryTime_ reopened * nanoseconds) as H3 by reflexivity.
  split; [by repeat split|].
  exact (open_cooldown_short_circuit nanoseconds H0 reopened (succeeds_at 11)
           H1 H2 H3).
Defined.

Lemma open_expired_trial_call_witness :
  (0 < nanoseconds /\
   state_ reopened = OPEN /\
   retryTime_ reopened * nanoseconds
     <= clock_at_check (succeeds_at 12) - lastFailureTime_ reopened) /\
  (exists b1 : t,
     open_check nanoseconds (clock_at_check (succeeds_at 12)) reopened
       = Some b1 /\
     state_ b1 = HALF_OPEN /\
     successCount_ b1 = successCount_ reopened /\
     failureCount_ b1 = failureCount_ reopened /\
     lastFailureTime_ b1 = lastFailureTime_ reopened /\
     execute nanoseconds reopened (succeeds_at 12)
       = lock_guard (try_call (succeeds_at 12) b1) /\
     invocations (log_of (execute nanoseconds reopened (succeeds_at 12)))
       = 1%nat).
Proof.
  assert (0 < nanoseconds) as H0 by reflexivity.
  assert (state_ reopened = OPEN) as H1 by reflexivity.
  assert (retryTime_ reopened * nanoseconds
            <= clock_at_check (succeeds_at 12) - lastFailureTime_ reopened)
    as H2 by (vm_compute; discriminate).
  split; [by repeat split|].
  exact (open_expired_trial_call nanoseconds H0 reopened (succeeds_at 12)
           H1 H2).
Defined.

Lemma execute_absorbs_std_exception_witness :
  func (fails_at 1) <> Throws foreign_exception /\
  result_of (execute nanoseconds (constructed 3 5 2 0) (fails_at 1))
    = Returns fallback /\
  breaker_of (execute nanoseconds (constructed 3 5 2 0) (fails_at 1))
    = onFailure (clock_at_failure (fails_at 1)) (constructed 3 5 2 0).
Proof.
  assert (func (fails_at 1) <> Throws foreign_exception) as H1 by discriminate.
  split; [exact H1|].
  exact (proj1 (proj2 (execute_absorbs_std_exception nanoseconds
                         (constructed 3 5 2 0) (fails_at 1) H1))
           "Service failed"%string (constructed 3 5 2 0)
           eq_refl eq_refl).
Defined.

Lemma open_states_above_threshold_witness :
  (Z.of_nat (length [fails_at 1; fails_at 2; fails_at 3]) <= INT_MAX /\
   state_ (run nanoseconds (constructed 3 5 2 0)
             [fails_at 1; fails_at 2; fails_at 3]) <> CLOSED) /\
  3 <= failureCount_ (run nanoseconds (constructed 3 5 2 0)
                        [fails_at 1; fails_at 2; fails_at 3])
    <= Z.of_nat (length [fails_at 1; fails_at 2; fails_at 3]).
Proof.
  assert (Z.of_nat (length [fails_at 1; fails_at 2; fails_at 3]) <= INT_MAX)
    as H1 by (vm_compute; discriminate).
  assert (state_ (run nanoseconds (constructed 3 5 2 0)
                    [fails_at 1; fails_at 2; fails_at 3]) <> CLOSED)
    as H2 by (vm_compute; discriminate).
  split; [by split|].
  exact (open_states_above_threshold nanoseconds 3 5 2 0
           [fails_at 1; fails_at 2; fails_at 3] H1 H2).
Defined.



(** ** Where the code departs from the specification *)

(** Against C1: at a failure threshold of 3, three calls in a row whose
    [func] throws something that is not a [std::exception] are three failed
    operations with no success between them, all made in state CLOSED; the
    object is still CLOSED after them, and [failureCount_] is still 0. *)
Lemma foreign_failures_do_not_trip :
  state_ (constructed 3 5 2 0) = CLOSED /\
  failureCount_ (constructed 3 5 2 0) = 0 /\
  closed_throughout nanoseconds (constructed 3 5 2 0)
    [throws_int_at 1; throws_int_at 2] = true /\
  failed_in_a_row 0
    (outcomes [throws_int_at 1; throws_int_at 2; throws_int_at 3])
    = failureThreshold_ (constructed 3 5 2 0) /\
  state_ (run nanoseconds (constructed 3 5 2 0)
            ([throws_int_at 1; throws_int_at 2] ++ [throws_int_at 3]))
    <> OPEN /\
  run nanoseconds (constructed 3 5 2 0)
    ([throws_int_at 1; throws_int_at 2] ++ [throws_int_at 3])
    = constructed 3 5 2 0.
Proof.
  repeat split; try reflexivity. vm_compute. discriminate.
Qed.

(** Against C8: while a second trial success closes the circuit the object
    goes through [closing_history].  A [getMetrics] on another thread that
    reads [failureCount_] before that call has written anything and the
    other two members after its last assignment returns failureCount 3 with
    successCount 0 and state CLOSED: at no moment of the history did the
    object have these values, not even the two counters. *)
Lemma getMetrics_torn_snapshot :
  closing_history =
    [ mk 3 5 2 3 1 HALF_OPEN 3000000000;
      mk 3 5 2 3 2 HALF_OPEN 3000000000;
      mk 3 5 2 3 2 CLOSED 3000000000;
      mk 3 5 2 0 2 CLOSED 3000000000;
      mk 3 5 2 0 0 CLOSED 3000000000 ] /\
  last closing_history = Some (step nanoseconds second_trial (succeeds_at 9)) /\
  getMetrics_reads (mk 3 5 2 3 1 HALF_OPEN 3000000000)
                   (mk 3 5 2 0 0 CLOSED 3000000000)
                   (mk 3 5 2 0 0 CLOSED 3000000000)
    = list_to_map [("failureCount"%string, 3); ("successCount"%string, 0);
                   ("currentState"%string, 0)] /\
  Forall (fun b' => ~ (failureCount_ b' = 3 /\ successCount_ b' = 0))
         closing_history /\
  Forall (fun b' =>
            (getMetrics b').1 <>
            getMetrics_reads (mk 3 5 2 3 1 HALF_OPEN 3000000000)
                             (mk 3 5 2 0 0 CLOSED 3000000000)
                             (mk 3 5 2 0 0 CLOSED 3000000000))
         closing_history.
Proof.
  assert (closing_history =
    [ mk 3 5 2 3 1 HALF_OPEN 3000000000;
      mk 3 5 2 3 2 HALF_OPEN 3000000000;
      mk 3 5 2 3 2 CLOSED 3000000000;
      mk 3 5 2 0 2 CLOSED 3000000000;
      mk 3 5 2 0 0 CLOSED 3000000000 ]) as Hh by reflexivity.
  split; [exact Hh|]. split; [reflexivity|]. split; [reflexivity|].
  rewrite Hh. split.
  - repeat constructor; simpl; intros [Hfc Hsc]; discriminate.
  - repeat constructor; intros Heq.
    + apply (f_equal (fun m : gmap string Z => m !! "successCount"%string))
        in Heq. vm_compute in Heq. discriminate.
    + apply (f_equal (fun m : gmap string Z => m !! "successCount"%string))
        in Heq. vm_compute in Heq. discriminate.
    + apply (f_equal (fun m : gmap string Z => m !! "successCount"%string))
        in Heq. vm_compute in Heq. discriminate.
    + apply (f_equal (fun m : gmap string Z => m !! "successCount"%string))
        in Heq. vm_compute in Heq. discriminate.
    + apply (f_equal (fun m : gmap string Z => m !! "failureCount"%string))
        in Heq. vm_compute in Heq. discriminate.
Qed.

(** Against C3: [reopened] is OPEN with [successCount_ = 1], left there by
    the trial success before the failure that reopened it.  With the retry
    time elapsed the test at the head of [execute] moves it to HALF_OPEN
    with [successCount_] still 1, so that with a success threshold of 2 the
    single trial success closes it. *)
Lemma open_expired_keeps_successCount :
  state_ reopened = OPEN /\
  retryTime_ reopened * nanoseconds
    <= clock_at_check (succeeds_at 12) - lastFailureTime_ reopened /\
  open_check nanoseconds (clock_at_check (succeeds_at 12)) reopened
    = Some (set_state HALF_OPEN reopened) /\
  successCount_ (set_state HALF_OPEN reopened) = 1 /\
  ~ (exists b1 : t,
       open_check nanoseconds (clock_at_check (succeeds_at 12)) reopened
         = Some b1 /\
       state_ b1 = HALF_OPEN /\ successCount_ b1 = 0) /\
  successThreshold_ reopened = 2 /\
  state_ (step nanoseconds reopened (succeeds_at 12)) = CLOSED.
Proof.
  repeat split; try reflexivity.
  intros (b1 & Hc & _ & Hsc). vm_compute in Hc.
  injection Hc as <-. discriminate Hsc.
Qed.


(** Against C6: a failure threshold of 0 is accepted. *)
Lemma constructor_nonpositive_succeeds :
  CircuitBreaker 0 5 2 0 = Returns (constructed 0 5 2 0) /\
  ~ (exists e : exception, CircuitBreaker 0 5 2 0 = Throws e).
Proof.
  split; [reflexivity|]. intros [e He]. discriminate He.
Qed.

(** Against C7: a callable that throws something that is not a
    [std::exception] (an [int], say): the handler does not match, neither
    [onSuccess] nor [onFailure] runs, and the exception leaves [execute]. *)
Lemma execute_propagates_foreign_exception :
  execute nanoseconds (constructed 3 5 2 0) (throws_int_at 1)
    = (Throws foreign_exception, constructed 3 5 2 0, [Lock; Invoke; Unlock]) /\
  ~ (exists v : string,
       result_of (execute nanoseconds (constructed 3 5 2 0) (throws_int_at 1))
         = Returns v).
Proof.
  split; [reflexivity|]. intros [v Hv]. discriminate Hv.
Qed.

(** Against C9: with a failure threshold of [INT_MAX], [INT_MAX] failures
    open the object with [failureCount_ = INT_MAX]; the failing trial call
    after the retry time increments the atomic counter once more, to
    [INT_MIN], which is below the threshold, so the object stays HALF_OPEN
    with [failureCount_ < failureThreshold_]. *)
Lemma wrapped_count_below_threshold :
  state_ (run nanoseconds (constructed INT_MAX 5 1 0)
            (many_failures ++ [fails_at 1; fails_at 6])) = HALF_OPEN /\
  failureCount_ (run nanoseconds (constructed INT_MAX 5 1 0)
                   (many_failures ++ [fails_at 1; fails_at 6])) = INT_MIN /\
  ~ (failureThreshold_ (run nanoseconds (constructed INT_MAX 5 1 0)
                          (many_failures ++ [fails_at 1; fails_at 6]))
     <= failureCount_ (run nanoseconds (constructed INT_MAX 5 1 0)
                         (many_failures ++ [fails_at 1; fails_at 6]))).
Proof.
  assert (Z.of_nat (Z.to_nat (INT_MAX - 1)) = INT_MAX - 1) as Hn
    by (apply Z2Nat.id; unfold INT_MAX; lia).
  assert (run nanoseconds (constructed INT_MAX 5 1 0)
            (many_failures ++ [fails_at 1; fails_at 6])
          = mk INT_MAX 5 1 INT_MIN 0 HALF_OPEN 1000000000) as ->.
  { rewrite run_app. unfold many_failures.
    rewrite (run_failures_closed nanoseconds (Z.to_nat (INT_MAX - 1))
               (constructed INT_MAX 5 1 0) (fails_at 1) "Service failed"
               eq_refl eq_refl).
    - rewrite Hn. reflexivity.
    - unfold constructed, failureCount_. lia.
    - rewrite Hn. unfold constructed, failureCount_, failureThreshold_. lia.
    - unfold constructed, failureThreshold_. lia. }
  unfold failureThreshold_, failureCount_, state_, INT_MIN, INT_MAX.
  repeat split. lia.
Qed.

(** Against C10: in a call that reaches [func], [func] runs between the
    one Lock and the one Unlock. *)
Lemma lock_held_during_invocation :
  log_of (execute nanoseconds (constructed 3 5 2 0) (succeeds_at 1))
    = [Lock; Invoke; Unlock] /\
  held_at_invocations false
    (log_of (execute nanoseconds (constructed 3 5 2 0) (succeeds_at 1)))
    = [true] /\
  ~ Forall (fun held => held = false)
      (held_at_invocations false
         (log_of (execute nanoseconds (constructed 3 5 2 0) (succeeds_at 1)))) /\
  critical_sections
    (log_of (execute nanoseconds (constructed 3 5 2 0) (succeeds_at 1)))
    = 1%nat.
Proof.
  repeat split; try reflexivity.
  intros H. vm_compute in H. inversion H as [|? ? Hhd _]. discriminate Hhd.
Qed.

(** ** The further properties at sample inputs *)

Lemma closed_state_counters_witness :
  (3 <= INT_MAX /\
   state_ (run nanoseconds (constructed 3 5 2 0)
             [fails_at 1; succeeds_at 2; fails_at 3]) = CLOSED) /\
  (successCount_ (run nanoseconds (constructed 3 5 2 0)
                    [fails_at 1; succeeds_at 2; fails_at 3]) = 0 /\
   0 <= failureCount_ (run nanoseconds (constructed 3 5 2 0)
                         [fails_at 1; succeeds_at 2; fails_at 3])
     < Z.max 3 1).
Proof.
  assert (3 <= INT_MAX) as H1 by (unfold INT_MAX; lia).
  assert (state_ (run nanoseconds (constructed 3 5 2 0)
                    [fails_at 1; succeeds_at 2; fails_at 3]) = CLOSED) as H2
    by reflexivity.
  split; [by split|].
  exact (closed_state_counters nanoseconds 3 5 2 0
           [fails_at 1; succeeds_at 2; fails_at 3] H1 H2).
Defined.

Lemma success_count_below_threshold_witness :
  2 <= INT_MAX /\
  0 <= successCount_ (run nanoseconds (constructed 1 5 2 0)
                        [fails_at 1; succeeds_at 6]) < Z.max 2 1 /\
  Forall (fun b' => 0 <= successCount_ b' <= Z.max 2 1)
         (execute_writes nanoseconds
            (run nanoseconds (constructed 1 5 2 0) [fails_at 1; succeeds_at 6])
            (succeeds_at 7)).
Proof.
  assert (2 <= INT_MAX) as H1 by (unfold INT_MAX; lia).
  split; [exact H1|].
  exact (success_count_below_threshold nanoseconds 1 5 2 0
           [fails_at 1; succeeds_at 6] (succeeds_at 7) H1).
Defined.

Lemma lastFailureTime_written_on_opening_witness :
  lastFailureTime_ (step nanoseconds (constructed 1 5 2 0) (fails_at 1))
    <> lastFailureTime_ (constructed 1 5 2 0) /\
  state_ (step nanoseconds (constructed 1 5 2 0) (fails_at 1)) = OPEN /\
  lastFailureTime_ (step nanoseconds (constructed 1 5 2 0) (fails_at 1))
    = clock_at_failure (fails_at 1).
Proof.
  assert (lastFailureTime_ (step nanoseconds (constructed 1 5 2 0) (fails_at 1))
          <> lastFailureTime_ (constructed 1 5 2 0)) as H1
    by (vm_compute; discriminate).
  split; [exact H1|].
  pose proof (lastFailureTime_written_on_opening nanoseconds
                (constructed 1 5 2 0) (fails_at 1) H1) as (Hs & Ht & _).
  exact (conj Hs Ht).
Defined.

Lemma open_absorbs_calls_during_cooldown_witness :
  (0 < nanoseconds /\
   state_ reopened = OPEN /\
   0 < retryTime_ reopened /\
   Forall (fun c => clock_at_check c - lastFailureTime_ reopened
                      < retryTime_ reopened * nanoseconds)
          [succeeds_at 8; fails_at 9; succeeds_at 11]) /\
  run nanoseconds reopened [succeeds_at 8; fails_at 9; succeeds_at 11]
    = reopened.
Proof.
  assert (0 < nanoseconds) as H0 by reflexivity.
  assert (state_ reopened = OPEN) as H1 by reflexivity.
  assert (0 < retryTime_ reopened) as H2 by reflexivity.
  assert (Forall (fun c => clock_at_check c - lastFailureTime_ reopened
                             < retryTime_ reopened * nanoseconds)
                 [succeeds_at 8; fails_at 9; succeeds_at 11]) as H3
    by (repeat constructor).
  split; [by repeat split|].
  exact (proj1 (open_absorbs_calls_during_cooldown nanoseconds H0 reopened
                  [succeeds_at 8; fails_at 9; succeeds_at 11] H1 H2 H3)).
Defined.

Lemma returned_value_is_passed_on_witness :
  (func (succeeds_at 12) = Returns "Service success"%string /\
   invocations (log_of (execute nanoseconds reopened (succeeds_at 12)))
     = 1%nat) /\
  (result_of (execute nanoseconds reopened (succeeds_at 12))
     = Returns "Service success"%string /\
   state_ (step nanoseconds reopened (succeeds_at 12)) <> OPEN).
Proof.
  assert (func (succeeds_at 12) = Returns "Service success"%string) as H1
    by reflexivity.
  assert (invocations (log_of (execute nanoseconds reopened (succeeds_at 12)))
          = 1%nat) as H2 by reflexivity.
  split; [by split|].
  exact (returned_value_is_passed_on nanoseconds reopened (succeeds_at 12)
           "Service success" H1 H2).
Defined.

Lemma half_open_entered_from_open_witness :
  (state_ (step nanoseconds tripped (succeeds_at 8)) = HALF_OPEN /\
   state_ tripped <> HALF_OPEN) /\
  (state_ tripped = OPEN /\
   retryTime_ tripped
     <= elapsed_seconds nanoseconds (clock_at_check (succeeds_at 8))
          (lastFailureTime_ tripped)).
Proof.
  assert (state_ (step nanoseconds tripped (succeeds_at 8)) = HALF_OPEN) as H1
    by reflexivity.
  assert (state_ tripped <> HALF_OPEN) as H2 by (vm_compute; discriminate).
  split; [by split|].
  exact (half_open_entered_from_open nanoseconds tripped (succeeds_at 8)
           H1 H2).
Defined.

Lemma closed_left_only_by_failure_witness :
  (state_ (constructed 1 5 2 0) = CLOSED /\
   state_ (step nanoseconds (constructed 1 5 2 0) (fails_at 1)) <> CLOSED) /\
  (state_ (step nanoseconds (constructed 1 5 2 0) (fails_at 1)) = OPEN /\
   (exists what : string,
      func (fails_at 1) = Throws (std_exception what)) /\
   failureThreshold_ (constructed 1 5 2 0)
     <= failureCount_ (step nanoseconds (constructed 1 5 2 0) (fails_at 1)) /\
   lastFailureTime_ (step nanoseconds (constructed 1 5 2 0) (fails_at 1))
     = clock_at_failure (fails_at 1)).
Proof.
  assert (state_ (constructed 1 5 2 0) = CLOSED) as H1 by reflexivity.
  assert (state_ (step nanoseconds (constructed 1 5 2 0) (fails_at 1))
          <> CLOSED) as H2 by (vm_compute; discriminate).
  split; [by split|].
  exact (closed_left_only_by_failure nanoseconds (constructed 1 5 2 0)
           (fails_at 1) H1 H2).
Defined.

Lemma nonpositive_retryTime_always_tries_witness :
  (0 < nanoseconds /\
   state_ (step nanoseconds (constructed 1 0 2 0) (fails_at 1)) = OPEN /\
   retryTime_ (step nanoseconds (constructed 1 0 2 0) (fails_at 1)) <= 0 /\
   lastFailureTime_ (step nanoseconds (constructed 1 0 2 0) (fails_at 1))
     <= clock_at_check (succeeds_at 1)) /\
  invocations
    (log_of (execute nanoseconds
               (step nanoseconds (constructed 1 0 2 0) (fails_at 1))
               (succeeds_at 1))) = 1%nat.
Proof.
  assert (0 < nanoseconds) as H0 by reflexivity.
  assert (state_ (step nanoseconds (constructed 1 0 2 0) (fails_at 1)) = OPEN)
    as H1 by reflexivity.
  assert (retryTime_ (step nanoseconds (constructed 1 0 2 0) (fails_at 1))
          <= 0) as H2 by (vm_compute; discriminate).
  assert (lastFailureTime_ (step nanoseconds (constructed 1 0 2 0) (fails_at 1))
          <= clock_at_check (succeeds_at 1)) as H3
    by (vm_compute; discriminate).
  split; [by repeat split|].
  exact (proj2 (nonpositive_retryTime_always_tries nanoseconds H0
                  (step nanoseconds (constructed 1 0 2 0) (fails_at 1))
                  (succeeds_at 1) H1 H2 H3)).
Defined.

Lemma failureThreshold_at_most_one_witness :
  (0 <= 1 /\
   Z.of_nat (length (@nil Call)) < INT_MAX /\
   func (fails_at 1) = Throws (std_exception "Service failed") /\
   invocations
     (log_of (execute nanoseconds (run nanoseconds (constructed 0 5 2 0) [])
                (fails_at 1))) = 1%nat) /\
  state_ (step nanoseconds (run nanoseconds (constructed 0 5 2 0) [])
            (fails_at 1)) = OPEN.
Proof.
  assert (0 <= 1) as H1 by lia.
  assert (Z.of_nat (length (@nil Call)) < INT_MAX) as H2 by reflexivity.
  assert (func (fails_at 1) = Throws (std_exception "Service failed")) as H3
    by reflexivity.
  assert (invocations
            (log_of (execute nanoseconds
                       (run nanoseconds (constructed 0 5 2 0) [])
                       (fails_at 1))) = 1%nat) as H4 by reflexivity.
  split; [by repeat split|].
  exact (failureThreshold_at_most_one nanoseconds 0 5 2 0 [] (fails_at 1)
           "Service failed" H1 H2 H3 H4).
Defined.

Lemma successThreshold_at_most_one_witness :
  (0 <= 1 /\
   func (succeeds_at 6) = Returns "Service success"%string /\
   state_ (run nanoseconds (constructed 1 5 0 0) [fails_at 1]) <> CLOSED /\
   invocations
     (log_of (execute nanoseconds
                (run nanoseconds (constructed 1 5 0 0) [fails_at 1])
                (succeeds_at 6))) = 1%nat) /\
  (state_ (step nanoseconds
             (run nanoseconds (constructed 1 5 0 0) [fails_at 1])
             (succeeds_at 6)) = CLOSED /\
   failureCount_ (step nanoseconds
                    (run nanoseconds (constructed 1 5 0 0) [fails_at 1])
                    (succeeds_at 6)) = 0 /\
   successCount_ (step nanoseconds
                    (run nanoseconds (constructed 1 5 0 0) [fails_at 1])
                    (succeeds_at 6)) = 0).
Proof.
  assert (0 <= 1) as H1 by lia.
  assert (func (succeeds_at 6) = Returns "Service success"%string) as H2
    by reflexivity.
  assert (state_ (run nanoseconds (constructed 1 5 0 0) [fails_at 1])
          <> CLOSED) as H3 by (vm_compute; discriminate).
  assert (invocations
            (log_of (execute nanoseconds
                       (run nanoseconds (constructed 1 5 0 0) [fails_at 1])
                       (succeeds_at 6))) = 1%nat) as H4 by reflexivity.
  split; [by repeat split|].
  exact (successThreshold_at_most_one nanoseconds 1 5 0 0 [fails_at 1]
           (succeeds_at 6) "Service success" H1 H2 H3 H4).
Defined.

Lemma closed_throughout_iff_short_streaks_witness :
  (state_ (constructed 3 5 2 0) = CLOSED /\
   0 <= failureCount_ (constructed 3 5 2 0)
     < failureThreshold_ (constructed 3 5 2 0) /\
   failureThreshold_ (constructed 3 5 2 0) <= INT_MAX) /\
  closed_throughout nanoseconds (constructed 3 5 2 0)
    [fails_at 1; fails_at 2; succeeds_at 3; fails_at 4]
  = streaks_below (failureThreshold_ (constructed 3 5 2 0))
      (failureCount_ (constructed 3 5 2 0))
      (outcomes [fails_at 1; fails_at 2; succeeds_at 3; fails_at 4]).
Proof.
  assert (state_ (constructed 3 5 2 0) = CLOSED) as H1 by reflexivity.
  assert (0 <= failureCount_ (constructed 3 5 2 0)
            < failureThreshold_ (constructed 3 5 2 0)) as H2
    by (simpl; lia).
  assert (failureThreshold_ (constructed 3 5 2 0) <= INT_MAX) as H3
    by (unfold INT_MAX; simpl; lia).
  split; [by repeat split|].
  exact (closed_throughout_iff_short_streaks nanoseconds (constructed 3 5 2 0)
           [fails_at 1; fails_at 2; succeeds_at 3; fails_at 4] H1 H2 H3).
Defined.

Lemma execute_throws_only_foreign_witness :
  result_of (execute nanoseconds tripped (throws_int_at 8))
    = Throws foreign_exception /\
  failureCount_ (step nanoseconds tripped (throws_int_at 8))
    = failureCount_ tripped /\
  successCount_ (step nanoseconds tripped (throws_int_at 8))
    = successCount_ tripped /\
  lastFailureTime_ (step nanoseconds tripped (throws_int_at 8))
    = lastFailureTime_ tripped.
Proof.
  assert (result_of (execute nanoseconds tripped (throws_int_at 8))
          = Throws foreign_exception) as H1 by reflexivity.
  split; [exact H1|].
  pose proof (execute_throws_only_foreign nanoseconds tripped
                (throws_int_at 8) foreign_exception H1)
    as (_ & _ & _ & Hfc & Hsc & Ht & _).
  exact (conj Hfc (conj Hsc Ht)).
Defined.

Lemma open_recovers_after_retry_time_witness :
  (0 < nanoseconds /\
   0 < 2 <= INT_MAX /\
   state_ (run nanoseconds (constructed 3 5 2 0)
             [fails_at 1; fails_at 2; fails_at 3]) = OPEN /\
   5 * nanoseconds
     <= clock_at_check (succeeds_at 8)
        - lastFailureTime_ (run nanoseconds (constructed 3 5 2 0)
                              [fails_at 1; fails_at 2; fails_at 3]) /\
   Forall (fun c => exists v, func c = Returns v)
          [succeeds_at 8; succeeds_at 9] /\
   Z.of_nat (length [succeeds_at 8; succeeds_at 9]) = 2) /\
  (state_ (run nanoseconds tripped [succeeds_at 8; succeeds_at 9]) = CLOSED /\
   failureCount_ (run nanoseconds tripped [succeeds_at 8; succeeds_at 9]) = 0 /\
   successCount_ (run nanoseconds tripped [succeeds_at 8; succeeds_at 9]) = 0).
Proof.
  assert (0 < nanoseconds) as H0 by reflexivity.
  assert (0 < 2 <= INT_MAX) as H1 by (unfold INT_MAX; lia).
  assert (state_ (run nanoseconds (constructed 3 5 2 0)
                    [fails_at 1; fails_at 2; fails_at 3]) = OPEN) as H2
    by reflexivity.
  assert (5 * nanoseconds
          <= clock_at_check (succeeds_at 8)
             - lastFailureTime_ (run nanoseconds (constructed 3 5 2 0)
                                   [fails_at 1; fails_at 2; fails_at 3])) as H3
    by (vm_compute; discriminate).
  assert (Forall (fun c => exists v, func c = Returns v)
                 [succeeds_at 8; succeeds_at 9]) as H4
    by (repeat constructor; eexists; reflexivity).
  assert (Z.of_nat (length [succeeds_at 8; succeeds_at 9]) = 2) as H5
    by reflexivity.
  split; [by repeat split|].
  exact (open_recovers_after_retry_time nanoseconds H0 3 5 2 0
           [fails_at 1; fails_at 2; fails_at 3] (succeeds_at 8)
           [succeeds_at 9] H1 H2 H3 H4 H5).
Defined.

Lemma service_never_opens_the_circuit_witness :
  (state_ (constructed 3 5 2 0) = CLOSED /\
   successCount_ (constructed 3 5 2 0) = 0 /\
   0 <= 0 /\
   0 + Z.of_nat (length [(0, 0); (1, 1); (2, 2); (3, 3)]) <= INT_MAX /\
   failureCount_ (constructed 3 5 2 0) = 0 `mod` 3 /\
   3 <= failureThreshold_ (constructed 3 5 2 0) <= INT_MAX) /\
  main_loop nanoseconds [(0, 0); (1, 1); (2, 2); (3, 3)]
    (constructed 3 5 2 0, 0, mkConsole [] [])
  = (set_failureCount 1 (constructed 3 5 2 0), 4,
     mkConsole (closed_output 0 4) [], Returns 0).
Proof.
  assert (state_ (constructed 3 5 2 0) = CLOSED) as H1 by reflexivity.
  assert (successCount_ (constructed 3 5 2 0) = 0) as H2 by reflexivity.
  assert (0 <= 0) as H3 by lia.
  assert (0 + Z.of_nat (length [(0, 0); (1, 1); (2, 2); (3, 3)]) <= INT_MAX)
    as H4 by (vm_compute; discriminate).
  assert (failureCount_ (constructed 3 5 2 0) = 0 `mod` 3) as H5
    by reflexivity.
  assert (3 <= failureThreshold_ (constructed 3 5 2 0) <= INT_MAX) as H6
    by (unfold INT_MAX; simpl; lia).
  split; [by repeat split|].
  exact (service_never_opens_the_circuit nanoseconds
           [(0, 0); (1, 1); (2, 2); (3, 3)] (constructed 3 5 2 0) 0
           (mkConsole [] []) H1 H2 H3 H4 H5 H6).
Defined.

End CircuitBreaker.
